(** * AttachmentRefInput: staging, reconciling and committing attachments

    A shallow embedding of the script block of
    [plugins/attachment-resources/src/components/AttachmentRefInput.svelte].

    The component keeps a staged set of attachments next to a reference
    input.  Its variables are the fields of [Comp]; every function of the
    script is a computation in the monad [M], which threads the component
    variables, a trace of the effects the function has on its collaborators
    (store client, file service, draft controller, event dispatcher) and an
    exception.  The collaborators themselves are outside the file: their
    answers are read from an environment [Env].

    Asynchrony is kept in the trace.  Calling an operation of the client or
    of the file service adds [Issue call] and yields a pending promise;
    awaiting a promise adds [Settled call r] at the point where the
    function resumes.  A function is run on its own from call to return: no
    other handler of the component runs while it is suspended.  The one
    function that a caller does not wait for and whose caller goes on to
    answer, [loadFiles] under [pasteAction], is cut at its first [await]
    into what it does before the caller returns and what it does after. *)

From Stdlib Require Import String Ascii List ZArith NArith Bool Arith Lia.
From Stdlib Require Import Permutation.
Import ListNotations.
Open Scope string_scope.
Open Scope list_scope.

(** ** Values of the platform *)

(** [Ref<T>], [Markup] and plugin identifiers are branded strings. *)
Definition Ref := string.
Definition Markup := string.

(** A thrown value ([err: any]). *)
Definition Err := string.

(** What [getFileMetadata] resolves to: [Record<string, any> | undefined].
    The component only stores it. *)
Definition BlobMetadata := list (string * Z).

(** The DOM [File] as far as the component reads it. *)
Module File.
Record t := mk {
  name : string;
  type : string;
  size : Z;
  lastModified : Z
}.
End File.

Module Attachment.
Record t := mk {
  _id : Ref;
  _class : Ref;
  collection : string;
  modifiedOn : Z;
  modifiedBy : Ref;
  space : Ref;
  attachedTo : Ref;
  attachedToClass : Ref;
  name : string;
  file : Ref;
  type : string;
  size : Z;
  lastModified : Z;
  metadata : option BlobMetadata
}.

Definition eq_dec (a b : t) : {a = b} + {a <> b}.
Proof.
  repeat decide equality; try apply string_dec; try apply Z.eq_dec.
Defined.

Definition eqb (a b : t) : bool := if eq_dec a b then true else false.
End Attachment.

(** Identifiers imported from the plugins ([attachment.class.Attachment],
    [core.class.Blob]). *)
Definition attachment_class_Attachment : Ref := "attachment:class:Attachment".
Definition core_class_Blob : Ref := "core:class:Blob".

(** ** [Map<Ref, V>]: a JavaScript map, iterated in insertion order *)

Module IdMap.
Definition t (V : Type) := list (Ref * V).

Definition clear {V : Type} : t V := [].

Fixpoint get {V : Type} (k : Ref) (m : t V) : option V :=
  match m with
  | [] => None
  | (k', v) :: m' => if String.eqb k k' then Some v else get k m'
  end.

(** [set] on a present key replaces the value in place, on an absent key
    appends. *)
Fixpoint set {V : Type} (k : Ref) (v : V) (m : t V) : t V :=
  match m with
  | [] => [(k, v)]
  | (k', v') :: m' =>
      if String.eqb k k' then (k', v) :: m' else (k', v') :: set k v m'
  end.

Definition delete {V : Type} (k : Ref) (m : t V) : t V :=
  filter (fun e => negb (String.eqb k (fst e))) m.

Definition size {V : Type} (m : t V) : nat := length m.
Definition keys {V : Type} (m : t V) : list Ref := map fst m.
Definition values {V : Type} (m : t V) : list V := map snd m.

(** A JavaScript map holds each key once. *)
Definition wf {V : Type} (m : t V) : Prop := NoDup (keys m).
End IdMap.

(** ** [Set<T>], iterated in insertion order *)

Module JSet.
Section Ops.
Variable A : Type.
Variable eqb : A -> A -> bool.

Definition has (x : A) (s : list A) : bool := existsb (eqb x) s.

Definition add (x : A) (s : list A) : list A :=
  if has x s then s else s ++ [x].

(** [new Set(iterable)] *)
Definition of_list (l : list A) : list A :=
  fold_left (fun s x => add x s) l [].
End Ops.
Arguments has {A} eqb x s.
Arguments add {A} eqb x s.
Arguments of_list {A} eqb l.
End JSet.

(** [Set<Ref<Attachment>>] *)
Definition RefSet := list Ref.
Definition ref_has : Ref -> RefSet -> bool := JSet.has String.eqb.
Definition ref_add : Ref -> RefSet -> RefSet := JSet.add String.eqb.

(** [Set<Attachment>].  JavaScript compares the members by object identity;
    attachments are values here and are compared by their fields. *)
Definition AttachmentSet := list Attachment.t.
Definition attachment_add : Attachment.t -> AttachmentSet -> AttachmentSet :=
  JSet.add Attachment.eqb.

(** [toIdMap(arr)] of [@hcengineering/core]: [new Map(arr.map(p => [p._id, p]))]. *)
Definition toIdMap (arr : list Attachment.t) : IdMap.t Attachment.t :=
  fold_left (fun m p => IdMap.set (Attachment._id p) p m) arr IdMap.clear.

(** [Record<Ref<Attachment>, Attachment>]: the own properties of a plain
    object, listed in the order in which JavaScript enumerates them: the
    keys that are array indices first, in ascending numeric order, then the
    other keys in the order in which they were created. *)
Definition AttachmentRecord := list (Ref * Attachment.t).
Definition Object_entries (o : AttachmentRecord) : list (Ref * Attachment.t) := o.

Definition digit (a : ascii) : option N :=
  let n := N_of_ascii a in
  if ((48 <=? n) && (n <=? 57))%N then Some (n - 48)%N else None.

Fixpoint digits (s : string) (acc : N) : option N :=
  match s with
  | EmptyString => Some acc
  | String a s' =>
      match digit a with
      | Some d => digits s' (10 * acc + d)%N
      | None => None
      end
  end.

(** The array index a property key stands for: a canonical decimal numeral
    (no sign, no leading zero) of value at most [2^32 - 2]. *)
Definition array_index (key : string) : option N :=
  match key with
  | EmptyString => None
  | String a rest =>
      if Ascii.eqb a "0"%char then
        match rest with
        | EmptyString => Some 0%N
        | String _ _ => None
        end
      else
        match digits key 0 with
        | Some n => if (n <=? 4294967294)%N then Some n else None
        | None => None
        end
  end.

Definition is_array_index (key : string) : bool :=
  match array_index key with
  | Some _ => true
  | None => false
  end.

(** Sorting properties by their index. *)
Fixpoint insert_index (x : N * (Ref * Attachment.t))
  (l : list (N * (Ref * Attachment.t))) : list (N * (Ref * Attachment.t)) :=
  match l with
  | [] => [x]
  | y :: l' =>
      if (fst x <=? fst y)%N then x :: l else y :: insert_index x l'
  end.

Definition sort_index (l : list (N * (Ref * Attachment.t)))
  : list (N * (Ref * Attachment.t)) :=
  fold_right insert_index [] l.

Definition indexed (o : list (Ref * Attachment.t))
  : list (N * (Ref * Attachment.t)) :=
  flat_map (fun e => match array_index (fst e) with
                     | Some n => [(n, e)]
                     | None => []
                     end) o.

(** The properties of [o], created in the order of the list, as
    JavaScript enumerates them. *)
Definition enumerate (o : list (Ref * Attachment.t)) : AttachmentRecord :=
  map snd (sort_index (indexed o))
  ++ filter (fun e => negb (is_array_index (fst e))) o.

(** [Object.fromEntries(map)]: a property is created for each entry in
    turn (a repeated key keeps its place and takes the new value). *)
Definition Object_fromEntries (m : IdMap.t Attachment.t) : AttachmentRecord :=
  enumerate (fold_left (fun o e => IdMap.set (fst e) (snd e) o) m []).

(** ** The DOM as the paste handler sees it *)

(** An element together with its chain of parent elements; [node] is its
    identity.  [TopElement] has no parent element. *)
Inductive HTMLElement : Type :=
| TopElement (node : nat)
| ChildElement (node : nat) (parent : HTMLElement).

Definition parentElement (e : HTMLElement) : option HTMLElement :=
  match e with
  | TopElement _ => None
  | ChildElement _ p => Some p
  end.

(** [a === b] on elements. *)
Fixpoint element_eqb (a b : HTMLElement) : bool :=
  match a, b with
  | TopElement n, TopElement n' => Nat.eqb n n'
  | ChildElement n p, ChildElement n' p' => Nat.eqb n n' && element_eqb p p'
  | _, _ => false
  end.

Record DataTransferItem := { kind : string; item_type : string }.

Record DataTransfer := {
  items : list DataTransferItem;
  files : list File.t
}.

Record ClipboardEvent := {
  target : option HTMLElement;
  clipboardData : option DataTransfer
}.

Record DragEvent := { dataTransfer : option DataTransfer }.

(** The hidden [<input type="file">]. *)
Record HTMLInputElement := {
  input_files : option (list File.t);
  input_value : string
}.

(** ** Calls to the collaborators and the trace of effects *)

(** The asynchronous operations of the store client and of the file
    service.  Each returns a promise. *)
Inductive Call : Type :=
| UploadFile (file : File.t)
| GetFileMetadata (file : File.t) (uuid : Ref)
| AddCollection (_class space attachedTo attachedToClass : Ref)
    (collection : string) (attributes : Attachment.t) (id : Ref)
| RemoveCollection (_class space objectId attachedTo attachedToClass : Ref)
    (collection : string)
| DeleteFile (file : Ref).

(** [unknownError(err)] *)
Inductive Status : Type :=
| unknownError (err : Err).

(** The query document handed to a live query. *)
Record DocumentQuery := {
  q_space : option Ref;
  q_attachedTo : option Ref;
  q_attachedToClass : option Ref;
  q__id_in : option (list Ref)
}.

Inductive QueryHandle : Type :=
| query
| existingAttachmentsQuery.

(** The payload of the ['message'] and ['update'] events. *)
Record Detail := {
  message : Markup;
  detail_attachments : nat
}.

Inductive Event : Type :=
| Issue (c : Call)                      (* the call is made, its promise is pending *)
| Settled (c : Call) (r : option Err)   (* an awaited promise settles; [None] is fulfilment *)
| Tick                                  (* [await tick()] *)
| SetPlatformStatus (s : Status)
| DraftSave (key : string) (d : AttachmentRecord)
| DraftRemove (key : string)
| LiveQuery (h : QueryHandle) (_class : Ref) (q : DocumentQuery)
    (lookup : list (string * Ref))
| Dispatch (type : string) (detail : Detail).

Definition Trace := list Event.

(** A promise of the component is settled by the calls it waits for:
    none for an [async] function that returned without awaiting, one for
    [saveAttachment] and [deleteAttachment], all of them for
    [Promise.all]. *)
Definition Promise := list Call.
Definition Promise_all (promises : list Promise) : Promise := concat promises.

(** ** The component *)

Record Comp := {
  (* props *)
  objectId : Ref;
  space : Ref;
  _class : Ref;
  shouldSaveDraft : bool;
  attachments : IdMap.t Attachment.t;
  loading : bool;
  (* locals *)
  inputFile : HTMLInputElement;
  saved : bool;
  draftKey : string;   (* [const], bound when the component is created *)
  draftAttachments : option AttachmentRecord;
  originalAttachments : RefSet;
  newAttachments : RefSet;
  removedAttachments : AttachmentSet;
  progress : bool;
  refContainer : option HTMLElement;   (* [None]: not bound yet *)
  existingAttachments : list Ref
}.

(** [bind:this={refContainer}] *)
Definition set_refContainer (v : option HTMLElement) (c : Comp) : Comp :=
  {| objectId := objectId c; space := space c; _class := _class c;
     shouldSaveDraft := shouldSaveDraft c; attachments := attachments c;
     loading := loading c; inputFile := inputFile c; saved := saved c;
     draftAttachments := draftAttachments c;
     originalAttachments := originalAttachments c;
     newAttachments := newAttachments c;
     removedAttachments := removedAttachments c; progress := progress c;
     draftKey := draftKey c;
     refContainer := v;
     existingAttachments := existingAttachments c |}.

(** The parent assigns the prop [objectId]; [draftKey] is a constant and
    keeps the value it was given at creation. *)
Definition set_objectId (v : Ref) (c : Comp) : Comp :=
  {| objectId := v; space := space c; _class := _class c;
     shouldSaveDraft := shouldSaveDraft c; attachments := attachments c;
     loading := loading c; inputFile := inputFile c; saved := saved c;
     draftAttachments := draftAttachments c;
     originalAttachments := originalAttachments c;
     newAttachments := newAttachments c;
     removedAttachments := removedAttachments c; progress := progress c;
     draftKey := draftKey c;
     refContainer := refContainer c;
     existingAttachments := existingAttachments c |}.

(** The component as the script creates it from its props (lines 34-73):
    [const draftKey = `${objectId}_attachments`] is evaluated here, once. *)
Definition create (objectId space _class : Ref) (shouldSaveDraft : bool)
  (attachments : IdMap.t Attachment.t) : Comp :=
  {| objectId := objectId; space := space; _class := _class;
     shouldSaveDraft := shouldSaveDraft; attachments := attachments;
     loading := false;
     inputFile := {| input_files := None; input_value := "" |};
     saved := false;
     draftKey := (objectId ++ "_attachments")%string;
     draftAttachments := None;
     originalAttachments := []; newAttachments := [];
     removedAttachments := []; progress := false;
     refContainer := None; existingAttachments := [] |}.

Definition set_attachments (v : IdMap.t Attachment.t) (c : Comp) : Comp :=
  {| objectId := objectId c; space := space c; _class := _class c;
     shouldSaveDraft := shouldSaveDraft c; attachments := v;
     loading := loading c; inputFile := inputFile c; saved := saved c;
     draftAttachments := draftAttachments c;
     originalAttachments := originalAttachments c;
     newAttachments := newAttachments c;
     removedAttachments := removedAttachments c; progress := progress c;
     draftKey := draftKey c;
     refContainer := refContainer c;
     existingAttachments := existingAttachments c |}.

Definition set_loading (v : bool) (c : Comp) : Comp :=
  {| objectId := objectId c; space := space c; _class := _class c;
     shouldSaveDraft := shouldSaveDraft c; attachments := attachments c;
     loading := v; inputFile := inputFile c; saved := saved c;
     draftAttachments := draftAttachments c;
     originalAttachments := originalAttachments c;
     newAttachments := newAttachments c;
     removedAttachments := removedAttachments c; progress := progress c;
     draftKey := draftKey c;
     refContainer := refContainer c;
     existingAttachments := existingAttachments c |}.

Definition set_inputFile (v : HTMLInputElement) (c : Comp) : Comp :=
  {| objectId := objectId c; space := space c; _class := _class c;
     shouldSaveDraft := shouldSaveDraft c; attachments := attachments c;
     loading := loading c; inputFile := v; saved := saved c;
     draftAttachments := draftAttachments c;
     originalAttachments := originalAttachments c;
     newAttachments := newAttachments c;
     removedAttachments := removedAttachments c; progress := progress c;
     draftKey := draftKey c;
     refContainer := refContainer c;
     existingAttachments := existingAttachments c |}.

Definition set_saved (v : bool) (c : Comp) : Comp :=
  {| objectId := objectId c; space := space c; _class := _class c;
     shouldSaveDraft := shouldSaveDraft c; attachments := attachments c;
     loading := loading c; inputFile := inputFile c; saved := v;
     draftAttachments := draftAttachments c;
     originalAttachments := originalAttachments c;
     newAttachments := newAttachments c;
     removedAttachments := removedAttachments c; progress := progress c;
     draftKey := draftKey c;
     refContainer := refContainer c;
     existingAttachments := existingAttachments c |}.

Definition set_draftAttachments (v : option AttachmentRecord) (c : Comp) : Comp :=
  {| objectId := objectId c; space := space c; _class := _class c;
     shouldSaveDraft := shouldSaveDraft c; attachments := attachments c;
     loading := loading c; inputFile := inputFile c; saved := saved c;
     draftAttachments := v;
     originalAttachments := originalAttachments c;
     newAttachments := newAttachments c;
     removedAttachments := removedAttachments c; progress := progress c;
     draftKey := draftKey c;
     refContainer := refContainer c;
     existingAttachments := existingAttachments c |}.

Definition set_originalAttachments (v : RefSet) (c : Comp) : Comp :=
  {| objectId := objectId c; space := space c; _class := _class c;
     shouldSaveDraft := shouldSaveDraft c; attachments := attachments c;
     loading := loading c; inputFile := inputFile c; saved := saved c;
     draftAttachments := draftAttachments c;
     originalAttachments := v;
     newAttachments := newAttachments c;
     removedAttachments := removedAttachments c; progress := progress c;
     draftKey := draftKey c;
     refContainer := refContainer c;
     existingAttachments := existingAttachments c |}.

Definition set_newAttachments (v : RefSet) (c : Comp) : Comp :=
  {| objectId := objectId c; space := space c; _class := _class c;
     shouldSaveDraft := shouldSaveDraft c; attachments := attachments c;
     loading := loading c; inputFile := inputFile c; saved := saved c;
     draftAttachments := draftAttachments c;
     originalAttachments := originalAttachments c;
     newAttachments := v;
     removedAttachments := removedAttachments c; progress := progress c;
     draftKey := draftKey c;
     refContainer := refContainer c;
     existingAttachments := existingAttachments c |}.

Definition set_removedAttachments (v : AttachmentSet) (c : Comp) : Comp :=
  {| objectId := objectId c; space := space c; _class := _class c;
     shouldSaveDraft := shouldSaveDraft c; attachments := attachments c;
     loading := loading c; inputFile := inputFile c; saved := saved c;
     draftAttachments := draftAttachments c;
     originalAttachments := originalAttachments c;
     newAttachments := newAttachments c;
     removedAttachments := v; progress := progress c;
     draftKey := draftKey c;
     refContainer := refContainer c;
     existingAttachments := existingAttachments c |}.

Definition set_progress (v : bool) (c : Comp) : Comp :=
  {| objectId := objectId c; space := space c; _class := _class c;
     shouldSaveDraft := shouldSaveDraft c; attachments := attachments c;
     loading := loading c; inputFile := inputFile c; saved := saved c;
     draftAttachments := draftAttachments c;
     originalAttachments := originalAttachments c;
     newAttachments := newAttachments c;
     removedAttachments := removedAttachments c; progress := v;
     draftKey := draftKey c;
     refContainer := refContainer c;
     existingAttachments := existingAttachments c |}.

Definition set_existingAttachments (v : list Ref) (c : Comp) : Comp :=
  {| objectId := objectId c; space := space c; _class := _class c;
     shouldSaveDraft := shouldSaveDraft c; attachments := attachments c;
     loading := loading c; inputFile := inputFile c; saved := saved c;
     draftAttachments := draftAttachments c;
     originalAttachments := originalAttachments c;
     newAttachments := newAttachments c;
     removedAttachments := removedAttachments c; progress := progress c;
     draftKey := draftKey c;
     refContainer := refContainer c;
     existingAttachments := v |}.

(** ** The environment: what the collaborators answer

    Every answer may depend on the moment it is asked for, given as the
    number of effects the running function has had so far. *)
Record Env := {
  (** [uploadFile(file)]: the blob's uuid, or a rejection *)
  uploadFile_result : nat -> File.t -> Err + Ref;
  (** [getFileMetadata(file, uuid)] *)
  getFileMetadata_result : nat -> File.t -> Ref -> Err + option BlobMetadata;
  (** [client.addCollection], [client.removeCollection] and [deleteFile]:
      [None] is fulfilment *)
  client_result : nat -> Call -> option Err;
  (** [generateId()] *)
  generateId_result : nat -> Ref;
  (** [$draftsStore[key]] *)
  draftsStore : nat -> string -> option AttachmentRecord
}.

(** ** The monad of the script: component variables, trace, exception *)

Inductive Result (A : Type) : Type :=
| Ok (a : A)
| Thrown (e : Err).
Arguments Ok {A} a.
Arguments Thrown {A} e.

Definition M (A : Type) : Type := Comp -> Trace -> Result A * Comp * Trace.

Definition ret {A : Type} (a : A) : M A := fun c tr => (Ok a, c, tr).

Definition bind {A B : Type} (m : M A) (f : A -> M B) : M B :=
  fun c tr =>
    match m c tr with
    | (Ok a, c', tr') => f a c' tr'
    | (Thrown e, c', tr') => (Thrown e, c', tr')
    end.

Definition throw {A : Type} (e : Err) : M A := fun c tr => (Thrown e, c, tr).

(** [try { m } catch (err) { h err }] *)
Definition try_catch {A : Type} (m : M A) (h : Err -> M A) : M A :=
  fun c tr =>
    match m c tr with
    | (Ok a, c', tr') => (Ok a, c', tr')
    | (Thrown e, c', tr') => h e c' tr'
    end.

Definition get : M Comp := fun c tr => (Ok c, c, tr).
Definition modify (f : Comp -> Comp) : M unit := fun c tr => (Ok tt, f c, tr).
Definition emit (e : Event) : M unit := fun c tr => (Ok tt, c, tr ++ [e]).
Definition now : M nat := fun c tr => (Ok (length tr), c, tr).

Declare Scope js_scope.
Delimit Scope js_scope with js.
Notation "x <- m ;; k" := (bind m (fun x => k))
  (at level 100, m at next level, right associativity) : js_scope.
Notation "m ;; k" := (bind m (fun _ => k))
  (at level 100, right associativity) : js_scope.
Open Scope js_scope.

(** [for (const x of l) { body x }] and [s.forEach(body)] *)
Fixpoint forEach {A : Type} (l : list A) (body : A -> M unit) : M unit :=
  match l with
  | [] => ret tt
  | x :: l' => body x ;; forEach l' body
  end.

(** [for (let index = 0; index < length; index++) { body index }] *)
Definition for_index (length : nat) (body : nat -> M unit) : M unit :=
  forEach (seq 0 length) body.

(** [forEach] with a body that pushes its promise on a list. *)
Fixpoint collect {A : Type} (l : list A) (body : A -> M Promise) : M (list Promise) :=
  match l with
  | [] => ret []
  | x :: l' => p <- body x ;; ps <- collect l' body ;; ret (p :: ps)
  end.

(** ** The script *)

Section Script.
Variable env : Env.

(** *** Promises *)

(** Calling an asynchronous operation of the client or of the file service:
    the call is made at once and a pending promise comes back. *)
Definition issue (c : Call) : M Promise :=
  emit (Issue c) ;; ret [c].

(** The first call of a promise that the environment rejects. *)
Fixpoint rejection (n : nat) (p : Promise) : option (Call * Err) :=
  match p with
  | [] => None
  | c :: p' =>
      match client_result env n c with
      | Some err => Some (c, err)
      | None => rejection n p'
      end
  end.

(** [await p]: the function resumes when every call of [p] has fulfilled,
    or throws the reason of a rejection. *)
Definition await (p : Promise) : M unit :=
  n <- now ;;
  match rejection n p with
  | None => forEach p (fun c => emit (Settled c None))
  | Some (c, err) => emit (Settled c (Some err)) ;; throw err
  end.

(** [void m]: the promise of [m] is dropped, and a rejection with it. *)
Definition void {A : Type} (m : M A) : M unit :=
  try_catch (m ;; ret tt) (fun _ => ret tt).

(** [await uploadFile(file)] *)
Definition await_uploadFile (file : File.t) : M Ref :=
  emit (Issue (UploadFile file)) ;;
  n <- now ;;
  match uploadFile_result env n file with
  | inr uuid => emit (Settled (UploadFile file) None) ;; ret uuid
  | inl err => emit (Settled (UploadFile file) (Some err)) ;; throw err
  end.

(** [await getFileMetadata(file, uuid)] *)
Definition await_getFileMetadata (file : File.t) (uuid : Ref)
  : M (option BlobMetadata) :=
  emit (Issue (GetFileMetadata file uuid)) ;;
  n <- now ;;
  match getFileMetadata_result env n file uuid with
  | inr metadata => emit (Settled (GetFileMetadata file uuid) None) ;; ret metadata
  | inl err => emit (Settled (GetFileMetadata file uuid) (Some err)) ;; throw err
  end.

Definition generateId : M Ref :=
  n <- now ;; ret (generateId_result env n).

(** *** Drafts and the live queries *)

Definition query_attachedTo (objectId : Ref) : DocumentQuery :=
  {| q_space := None; q_attachedTo := Some objectId;
     q_attachedToClass := None; q__id_in := None |}.

(** The callback of [query] (lines 96-99). *)
Definition query_callback (res : list Attachment.t) : M unit :=
  modify (set_originalAttachments
            (JSet.of_list String.eqb (map Attachment._id res))) ;;
  modify (set_attachments (toIdMap res)).

(** Lines 77-107. *)
Definition updateAttachments (objectId : Ref) : M unit :=
  c <- get ;;
  n <- now ;;
  let draft := draftsStore env n (draftKey c) in
  modify (set_draftAttachments draft) ;;
  match draft with
  | Some draftAttachments =>
      if shouldSaveDraft c then
        modify (set_attachments IdMap.clear) ;;
        modify (set_newAttachments []) ;;
        forEach (Object_entries draftAttachments) (fun file =>
          modify (fun c => set_attachments
                             (IdMap.set (fst file) (snd file) (attachments c)) c)) ;;
        forEach (Object_entries draftAttachments) (fun file =>
          modify (fun c => set_newAttachments
                             (ref_add (fst file) (newAttachments c)) c)) ;;
        modify (set_originalAttachments []) ;;
        modify (set_removedAttachments [])
      else
        emit (LiveQuery query attachment_class_Attachment
                (query_attachedTo objectId) [("file", core_class_Blob)])
  | None =>
      emit (LiveQuery query attachment_class_Attachment
              (query_attachedTo objectId) [("file", core_class_Blob)])
  end.

(** [$: objectId && updateAttachments(objectId)] *)
Definition reactive_updateAttachments : M unit :=
  c <- get ;;
  if String.eqb (objectId c) "" then ret tt else updateAttachments (objectId c).

(** Lines 109-114.  [draftController.save] is the effect [DraftSave]. *)
Definition saveDraft : M unit :=
  c <- get ;;
  if shouldSaveDraft c then
    let draft := Object_fromEntries (attachments c) in
    modify (set_draftAttachments (Some draft)) ;;
    emit (DraftSave (draftKey c) draft)
  else ret tt.

(** The query document of [existingAttachmentsQuery] (lines 150-155). *)
Definition existingAttachments_query (c : Comp) : DocumentQuery :=
  {| q_space := Some (space c);
     q_attachedTo := Some (objectId c);
     q_attachedToClass := Some (_class c);
     q__id_in := Some (IdMap.keys (attachments c)) |}.

(** [$: existingAttachmentsQuery.query(...)] (lines 148-159) *)
Definition reactive_existingAttachmentsQuery : M unit :=
  c <- get ;;
  emit (LiveQuery existingAttachmentsQuery attachment_class_Attachment
          (existingAttachments_query c) []).

(** The callback of [existingAttachmentsQuery] (lines 156-158). *)
Definition existingAttachments_callback (res : list Attachment.t) : M unit :=
  modify (set_existingAttachments (map Attachment._id res)).

(** *** Staging *)

(** The attachment [createAttachment] stages for [file] (lines 122-137). *)
Definition staged (c : Comp) (_id : Ref) (file : File.t) (uuid : Ref)
  (metadata : option BlobMetadata) : Attachment.t :=
  {| Attachment._id := _id;
     Attachment._class := attachment_class_Attachment;
     Attachment.collection := "attachments";
     Attachment.modifiedOn := 0;
     Attachment.modifiedBy := "";
     Attachment.space := space c;
     Attachment.attachedTo := objectId c;
     Attachment.attachedToClass := _class c;
     Attachment.name := File.name file;
     Attachment.file := uuid;
     Attachment.type := File.type file;
     Attachment.size := File.size file;
     Attachment.lastModified := File.lastModified file;
     Attachment.metadata := metadata |}.

(** Lines 116-144. *)
Definition createAttachment (file : File.t) : M unit :=
  try_catch
    (uuid <- await_uploadFile file ;;
     metadata <- await_getFileMetadata file uuid ;;
     _id <- generateId ;;
     modify (fun c => set_attachments
                        (IdMap.set _id (staged c _id file uuid metadata)
                           (attachments c)) c) ;;
     modify (fun c => set_newAttachments (ref_add _id (newAttachments c)) c) ;;
     saveDraft)
    (fun err => emit (SetPlatformStatus (unknownError err))).

(** [existingAttachments.includes(id)] *)
Definition includes (l : list Ref) (id : Ref) : bool :=
  existsb (String.eqb id) l.

(** Lines 161-165.  The function awaits nothing but the call it makes, so
    its promise is that of the call. *)
Definition saveAttachment (doc : Attachment.t) : M Promise :=
  c <- get ;;
  if negb (includes (existingAttachments c) (Attachment._id doc)) then
    issue (AddCollection attachment_class_Attachment (space c) (objectId c)
             (_class c) "attachments" doc (Attachment._id doc))
  else ret [].

(** [list.item(index)] for every index of [list], awaiting
    [createAttachment] on each file (lines 172-177 and 186-191). *)
Definition createAttachment_each (list : list File.t) : M unit :=
  for_index (length list) (fun index =>
    match nth_error list index with
    | Some file => createAttachment file
    | None => ret tt
    end).

(** Lines 167-180. *)
Definition fileSelected : M unit :=
  modify (set_progress true) ;;
  emit Tick ;;
  c <- get ;;
  match input_files (inputFile c) with
  | None => ret tt
  | Some list =>
      if Nat.eqb (length list) 0 then ret tt
      else
        createAttachment_each list ;;
        (* [inputFile.value = ''] also empties the input's file list *)
        modify (set_inputFile {| input_files := Some []; input_value := "" |}) ;;
        modify (set_progress false)
  end.

(** Lines 182-193.  [e.dataTransfer?.files] is [undefined] without a
    [dataTransfer]. *)
Definition fileDrop (e : DragEvent) : M unit :=
  modify (set_progress true) ;;
  match option_map files (dataTransfer e) with
  | None => ret tt
  | Some list =>
      if Nat.eqb (length list) 0 then ret tt
      else
        createAttachment_each list ;;
        modify (set_progress false)
  end.

(** *** Commit and rollback *)

(** Lines 205-218. *)
Definition deleteAttachment (attachment : Attachment.t) : M Promise :=
  c <- get ;;
  if ref_has (Attachment._id attachment) (originalAttachments c) then
    issue (RemoveCollection (Attachment._class attachment)
             (Attachment.space attachment) (Attachment._id attachment)
             (Attachment.attachedTo attachment)
             (Attachment.attachedToClass attachment) "attachments")
  else
    issue (DeleteFile (Attachment.file attachment)).

(** Lines 246-259: the promises are pushed without being awaited and
    joined by [Promise.all].  An id without an attachment pushes nothing,
    which joins like a promise with no call. *)
Definition createAttachments : M Promise :=
  modify (set_saved true) ;;
  c <- get ;;
  saves <- collect (newAttachments c) (fun p =>
    c <- get ;;
    match IdMap.get p (attachments c) with
    | Some attachment => saveAttachment attachment
    | None => ret []
    end) ;;
  c <- get ;;
  deletes <- collect (removedAttachments c) (fun p => deleteAttachment p) ;;
  ret (Promise_all (saves ++ deletes)).

(** Lines 195-203. *)
Definition removeAttachment (attachment : Attachment.t) : M unit :=
  modify (fun c => set_removedAttachments
                     (attachment_add attachment (removedAttachments c)) c) ;;
  modify (fun c => set_attachments
                     (IdMap.delete (Attachment._id attachment) (attachments c)) c) ;;
  c <- get ;;
  (if shouldSaveDraft c then p <- createAttachments ;; await p else ret tt) ;;
  saveDraft.

(** Lines 220-232. *)
Definition onDestroy : M unit :=
  c <- get ;;
  (if negb (saved c) && negb (shouldSaveDraft c) then
     forEach (newAttachments c) (fun p =>
       c <- get ;;
       match IdMap.get p (attachments c) with
       | Some attachment => void (deleteAttachment attachment)
       | None => ret tt
       end)
   else ret tt) ;;
  c <- get ;;
  if negb (saved c) && shouldSaveDraft c then void createAttachments
  else ret tt.

(** Lines 234-244. *)
Definition removeDraft (removeFiles : bool) : M unit :=
  c <- get ;;
  emit (DraftRemove (draftKey c)) ;;
  if removeFiles then
    forEach (newAttachments c) (fun p =>
      c <- get ;;
      match IdMap.get p (attachments c) with
      | Some attachment => void (issue (DeleteFile (Attachment.file attachment)))
      | None => ret tt
      end)
  else ret tt.

(** Lines 261-266. *)
Definition onMessage (event_detail : Markup) : M unit :=
  modify (set_loading true) ;;
  p <- createAttachments ;;
  await p ;;
  modify (set_loading false) ;;
  c <- get ;;
  emit (Dispatch "message"
          {| message := event_detail;
             detail_attachments := IdMap.size (attachments c) |}).

(** Lines 268-270. *)
Definition onUpdate (event_detail : Markup) : M unit :=
  c <- get ;;
  emit (Dispatch "update"
          {| message := event_detail;
             detail_attachments := IdMap.size (attachments c) |}).

(** *** Paste *)

(** Lines 272-281. *)
Definition loadFiles (evt : ClipboardEvent) : M unit :=
  modify (set_progress true) ;;
  forEach (match clipboardData evt with
           | Some d => files d
           | None => []
           end) createAttachment ;;
  modify (set_progress false).

(** The files of the pasted data: [evt.clipboardData?.files ?? []]. *)
Definition clipboard_files (evt : ClipboardEvent) : list File.t :=
  match clipboardData evt with
  | Some d => files d
  | None => []
  end.

(** [createAttachment(file)] from its first [await] on: [uploadFile(file)]
    has been called and its promise settles. *)
Definition createAttachment_resumed (file : File.t) : M unit :=
  try_catch
    (uuid <- (n <- now ;;
              match uploadFile_result env n file with
              | inr uuid => emit (Settled (UploadFile file) None) ;; ret uuid
              | inl err => emit (Settled (UploadFile file) (Some err)) ;; throw err
              end) ;;
     metadata <- await_getFileMetadata file uuid ;;
     _id <- generateId ;;
     modify (fun c => set_attachments
                        (IdMap.set _id (staged c _id file uuid metadata)
                           (attachments c)) c) ;;
     modify (fun c => set_newAttachments (ref_add _id (newAttachments c)) c) ;;
     saveDraft)
    (fun err => emit (SetPlatformStatus (unknownError err))).

(** What [loadFiles(evt)] does before it returns its promise to a caller
    that does not await it: it runs up to its first [await], the call of
    [uploadFile] on the first file; without files it runs to its end. *)
Definition loadFiles_started (evt : ClipboardEvent) : M unit :=
  modify (set_progress true) ;;
  match clipboard_files evt with
  | [] => modify (set_progress false)
  | file :: _ => emit (Issue (UploadFile file))
  end.

(** The rest of [loadFiles(evt)], run when that first promise settles. *)
Definition loadFiles_resumed (evt : ClipboardEvent) : M unit :=
  match clipboard_files evt with
  | [] => ret tt
  | file :: rest =>
      createAttachment_resumed file ;;
      forEach rest createAttachment ;;
      modify (set_progress false)
  end.

(** [target === refContainer], [target] being an element or [null] and
    [refContainer] an element or not bound yet. *)
Definition is_refContainer (target refContainer : option HTMLElement) : bool :=
  match target, refContainer with
  | Some t, Some r => element_eqb t r
  | _, _ => false
  end.

(** The [while (target != null)] loop of [pasteAction] (lines 287-292),
    entered with a non-null [target]: one round moves to the parent
    element and compares it with the container.  The result is [allowed]
    after the loop. *)
Fixpoint while_target (refContainer : option HTMLElement)
  (target : HTMLElement) (allowed : bool) : bool :=
  match target with
  | TopElement _ =>
      if is_refContainer None refContainer then true else allowed
  | ChildElement _ p =>
      while_target refContainer p
        (if is_refContainer (Some p) refContainer then true else allowed)
  end.

Definition hasFiles (evt : ClipboardEvent) : bool :=
  existsb (fun i => String.eqb (kind i) "file")
    (match clipboardData evt with
     | Some d => items d
     | None => []
     end).

(** Lines 283-305.  [void loadFiles(evt)] starts [loadFiles] and drops its
    promise: [true] is returned as soon as [loadFiles] is suspended on its
    first upload. *)
Definition pasteAction (evt : ClipboardEvent) : M bool :=
  c <- get ;;
  let allowed :=
    match target evt with
    | Some t => while_target (refContainer c) t false
    | None => false
    end in
  if negb allowed then ret false
  else if negb (hasFiles evt) then ret false
  else void (loadFiles_started evt) ;; ret true.

End Script.

(** The parent assigns the prop [objectId]: the reactive statements that
    read it (lines 75 and 148) run again. *)
Definition assign_objectId (env : Env) (v : Ref) : M unit :=
  modify (set_objectId v) ;;
  reactive_updateAttachments env ;;
  reactive_existingAttachmentsQuery.

(** ** Executions of the component *)

(** What can happen to a mounted component: the two reactive statements,
    the answers of the two live queries, the handlers of the markup and the
    exported functions. *)
Inductive Op : Type :=
| ReactiveUpdateAttachments
| QueryResult (res : list Attachment.t)
| ReactiveExistingAttachmentsQuery
| ExistingAttachmentsResult (res : list Attachment.t)
| FileSelected
| FileDrop (e : DragEvent)
| RemoveAttachment (attachment : Attachment.t)
| RemoveDraft (removeFiles : bool)
| CreateAttachments
| Message (event_detail : Markup)
| Update (event_detail : Markup)
| Paste (evt : ClipboardEvent).

Definition perform (env : Env) (op : Op) : M unit :=
  match op with
  | ReactiveUpdateAttachments => reactive_updateAttachments env
  | QueryResult res => query_callback res
  | ReactiveExistingAttachmentsQuery => reactive_existingAttachmentsQuery
  | ExistingAttachmentsResult res => existingAttachments_callback res
  | FileSelected => fileSelected env
  | FileDrop e => fileDrop env e
  | RemoveAttachment attachment => removeAttachment env attachment
  | RemoveDraft removeFiles => removeDraft removeFiles
  | CreateAttachments => void createAttachments
  | Message event_detail => onMessage env event_detail
  | Update event_detail => onUpdate event_detail
  | Paste evt =>
      (* the handler, then the rest of the [loadFiles] it started *)
      void (started <- pasteAction evt ;;
            if started then loadFiles_resumed env evt else ret tt)
  end.

(** The component and the trace after a sequence of operations; an
    operation that throws leaves what it did so far. *)
Fixpoint execute (env : Env) (ops : list Op) (c : Comp) (tr : Trace)
  : Comp * Trace :=
  match ops with
  | [] => (c, tr)
  | op :: ops' =>
      let '(_, c', tr') := perform env op c tr in execute env ops' c' tr'
  end.

(** The operations that run [createAttachments]; [removeAttachment] does
    when drafts are saved. *)
Definition invokes_createAttachments (shouldSaveDraft : bool) (op : Op) : bool :=
  match op with
  | CreateAttachments => true
  | Message _ => true
  | RemoveAttachment _ => shouldSaveDraft
  | _ => false
  end.

(** ** Reading a trace *)

(** The calls pending after a further event. *)
Definition pending_after (n : nat) (e : Event) : nat :=
  match e with
  | Issue _ => S n
  | Settled _ _ => pred n
  | _ => n
  end.

(** The largest number of calls pending at once along [tr], [n] pending at
    its start. *)
Fixpoint max_pending (n : nat) (tr : Trace) : nat :=
  match tr with
  | [] => n
  | e :: tr' => Nat.max n (max_pending (pending_after n e) tr')
  end.

Definition max_in_flight (tr : Trace) : nat := max_pending 0 tr.

(** The calls pending at the end of [tr]. *)
Definition pending_at_end (n : nat) (tr : Trace) : nat :=
  fold_left pending_after tr n.

(** A stretch of trace in which every call is awaited before the next is
    made. *)
Definition one_at_a_time (tr : Trace) : Prop :=
  max_pending 0 tr <= 1 /\ pending_at_end 0 tr = 0.

Definition is_draft_save (e : Event) : bool :=
  match e with
  | DraftSave _ _ => true
  | _ => false
  end.

(** The calls the commit makes in [c]: one [addCollection] for each staged
    id still in the map and not known to be persisted, then one removal for
    each removed attachment. *)
Definition saveAttachment_calls (c : Comp) (doc : Attachment.t) : Promise :=
  if negb (includes (existingAttachments c) (Attachment._id doc)) then
    [AddCollection attachment_class_Attachment (space c) (objectId c)
       (_class c) "attachments" doc (Attachment._id doc)]
  else [].

Definition deleteAttachment_call (c : Comp) (attachment : Attachment.t) : Call :=
  if ref_has (Attachment._id attachment) (originalAttachments c) then
    RemoveCollection (Attachment._class attachment)
      (Attachment.space attachment) (Attachment._id attachment)
      (Attachment.attachedTo attachment)
      (Attachment.attachedToClass attachment) "attachments"
  else DeleteFile (Attachment.file attachment).

Definition createAttachments_calls (c : Comp) : list Call :=
  flat_map (fun p =>
              match IdMap.get p (attachments c) with
              | Some attachment => saveAttachment_calls c attachment
              | None => []
              end) (newAttachments c)
  ++ map (deleteAttachment_call c) (removedAttachments c).

(** The calls the teardown makes to roll back the staged attachments. *)
Definition rollback_calls (c : Comp) : list Call :=
  flat_map (fun p =>
              match IdMap.get p (attachments c) with
              | Some attachment => [deleteAttachment_call c attachment]
              | None => []
              end) (newAttachments c).

(** The client fulfils every call of [calls] at moment [n]. *)
Definition fulfils (env : Env) (n : nat) (calls : list Call) : Prop :=
  forall call, In call calls -> client_result env n call = None.

(** The component after [removeAttachment] has moved [attachment] from the
    map to [removedAttachments]. *)
Definition removed (attachment : Attachment.t) (c : Comp) : Comp :=
  set_attachments (IdMap.delete (Attachment._id attachment) (attachments c))
    (set_removedAttachments
       (attachment_add attachment (removedAttachments c)) c).

(** [m] returns normally, and what it adds to the trace satisfies [P]. *)
Definition emits (P : Trace -> Prop) (m : M unit) : Prop :=
  forall c tr, exists c' ev, m c tr = (Ok tt, c', tr ++ ev) /\ P ev.

(** [m] keeps [P] true of the component, whatever it returns. *)
Definition preserves {A : Type} (P : Comp -> Prop) (m : M A) : Prop :=
  forall c tr, P c -> P (snd (fst (m c tr))).

(** A property of the component that no assignment of the script can
    break; [saved] is only ever assigned [true]. *)
Record stable (P : Comp -> Prop) : Prop := {
  stable_attachments : forall v c, P c -> P (set_attachments v c);
  stable_loading : forall v c, P c -> P (set_loading v c);
  stable_inputFile : forall v c, P c -> P (set_inputFile v c);
  stable_saved : forall c, P c -> P (set_saved true c);
  stable_draftAttachments : forall v c, P c -> P (set_draftAttachments v c);
  stable_originalAttachments : forall v c, P c -> P (set_originalAttachments v c);
  stable_newAttachments : forall v c, P c -> P (set_newAttachments v c);
  stable_removedAttachments : forall v c, P c -> P (set_removedAttachments v c);
  stable_progress : forall v c, P c -> P (set_progress v c);
  stable_existingAttachments : forall v c, P c -> P (set_existingAttachments v c)
}.

(** The calls that reach the document store or delete a blob. *)
Definition is_store_call (e : Event) : bool :=
  match e with
  | Issue (AddCollection _ _ _ _ _ _ _) => true
  | Issue (RemoveCollection _ _ _ _ _ _) => true
  | Issue (DeleteFile _) => true
  | _ => false
  end.

(** The operations that can reach the store or delete a blob: those that
    run [createAttachments], and [removeDraft(true)]. *)
Definition touches_store (shouldSaveDraft : bool) (op : Op) : bool :=
  match op with
  | RemoveDraft removeFiles => removeFiles
  | _ => invokes_createAttachments shouldSaveDraft op
  end.

Definition is_removeCollection (e : Event) : bool :=
  match e with
  | Issue (RemoveCollection _ _ _ _ _ _) => true
  | _ => false
  end.

Definition is_QueryResult (op : Op) : bool :=
  match op with
  | QueryResult _ => true
  | _ => false
  end.

(** Started in a component satisfying [P], [m] keeps [P] and adds only
    events satisfying [Q] to the trace, whatever it returns. *)
Definition emits_only {A : Type} (P : Comp -> Prop) (Q : Event -> Prop)
  (m : M A) : Prop :=
  forall c tr,
    P c ->
    P (snd (fst (m c tr))) /\
    exists ev, snd (m c tr) = tr ++ ev /\ Forall Q ev.

(** The files whose upload is started along a trace, in order. *)
Definition uploads (tr : Trace) : list File.t :=
  flat_map (fun e => match e with
                     | Issue (UploadFile file) => [file]
                     | _ => []
                     end) tr.

(** The sets and the map of the component hold each id once. *)
Definition well_formed (c : Comp) : Prop :=
  IdMap.wf (attachments c) /\
  NoDup (newAttachments c) /\
  NoDup (originalAttachments c).

(** From [c] to [c'] at most [n] attachments were added and none was
    dropped, in the map and in [newAttachments]. *)
Definition grows_by (n : nat) (c c' : Comp) : Prop :=
  IdMap.size (attachments c) <= IdMap.size (attachments c') /\
  IdMap.size (attachments c') <= IdMap.size (attachments c) + n /\
  incl (IdMap.keys (attachments c)) (IdMap.keys (attachments c')) /\
  incl (newAttachments c) (newAttachments c').

(** ** The DOM: proper descendants *)

(** [strict_descendant r t]: [r] is reached from [t] by one or more
    [parentElement] links. *)
Inductive strict_descendant (r : HTMLElement) : HTMLElement -> Prop :=
| sd_parent (n : nat) : strict_descendant r (ChildElement n r)
| sd_ancestor (n : nat) (p : HTMLElement) :
    strict_descendant r p -> strict_descendant r (ChildElement n p).

(** ** A small scenario

    An input under the object ["obj"], two files, and three environments:
    one in which every call fulfils, one in which uploads are rejected and
    one in which the store client and the file deletion are rejected. *)

Definition file_png : File.t :=
  {| File.name := "a.png"; File.type := "image/png";
     File.size := 10; File.lastModified := 1000 |}.

Definition file_txt : File.t :=
  {| File.name := "b.txt"; File.type := "text/plain";
     File.size := 20; File.lastModified := 2000 |}.

Definition env_fulfil : Env :=
  {| uploadFile_result := fun _ f => inr ("blob-" ++ File.name f)%string;
     getFileMetadata_result := fun _ _ _ => inr None;
     client_result := fun _ _ => None;
     generateId_result :=
       fun n => ("id-" ++ String (Ascii.ascii_of_nat (48 + n)) "")%string;
     draftsStore := fun _ _ => None |}.

Definition env_upload_rejects : Env :=
  {| uploadFile_result := fun _ _ => inl "offline";
     getFileMetadata_result := fun _ _ _ => inr None;
     client_result := fun _ _ => None;
     generateId_result := generateId_result env_fulfil;
     draftsStore := fun _ _ => None |}.

Definition env_client_rejects : Env :=
  {| uploadFile_result := uploadFile_result env_fulfil;
     getFileMetadata_result := fun _ _ _ => inr None;
     client_result := fun _ _ => Some "offline";
     generateId_result := generateId_result env_fulfil;
     draftsStore := fun _ _ => None |}.

(** The component right after creation. *)
Definition created (shouldSaveDraft : bool) : Comp :=
  set_inputFile {| input_files := Some [file_png; file_txt]; input_value := "" |}
    (create "obj" "sp" "cls" shouldSaveDraft IdMap.clear).

(** The component with both files staged. *)
Definition two_staged (shouldSaveDraft : bool) : Comp :=
  snd (fst (fileSelected env_fulfil (created shouldSaveDraft) [])).

(** The attachment staged for [file_png]. *)
Definition attachment_png : Attachment.t :=
  staged (created false) "id-5" file_png "blob-a.png" None.

(** The attachment staged for [file_txt]. *)
Definition attachment_txt : Attachment.t :=
  staged (created false) "id-9" file_txt "blob-b.txt" None.

(** An environment whose drafts store holds a draft for ["obj"]. *)
Definition env_draft : Env :=
  {| uploadFile_result := uploadFile_result env_fulfil;
     getFileMetadata_result := fun _ _ _ => inr None;
     client_result := fun _ _ => None;
     generateId_result := generateId_result env_fulfil;
     draftsStore :=
       fun _ key =>
         if String.eqb key "obj_attachments"
         then Some [("id-5", attachment_png)]
         else None |}.

(** The container of the component in a page, the editor inside it, and
    a paste of one image file on a given target. *)
Definition container : HTMLElement :=
  ChildElement 2 (ChildElement 1 (TopElement 0)).

Definition editor : HTMLElement :=
  ChildElement 4 (ChildElement 3 container).

Definition paste_image (t : HTMLElement) : ClipboardEvent :=
  {| target := Some t;
     clipboardData :=
       Some {| items := [{| kind := "file"; item_type := "image/png" |}];
               files := [file_png] |} |}.

Definition mounted : Comp := set_refContainer (Some container) (created false).

(** The component with one staged attachment in the map and drafts on. *)
Definition one_staged : Comp :=
  set_newAttachments ["id-5"]
    (set_attachments [("id-5", attachment_png)] (created true)).

(** * Properties *)

(** ** Maps and sets *)

Lemma get_set_eq (V : Type) (k : Ref) (v : V) (m : IdMap.t V) :
  IdMap.get k (IdMap.set k v m) = Some v.
Proof.
  induction m as [|[k' v'] m IH]; simpl.
  - now rewrite String.eqb_refl.
  - destruct (String.eqb k k') eqn:E; simpl; rewrite E; auto.
Qed.

Lemma get_set_ne (V : Type) (k k0 : Ref) (v : V) (m : IdMap.t V) :
  k0 <> k -> IdMap.get k0 (IdMap.set k v m) = IdMap.get k0 m.
Proof.
  intros Hne. induction m as [|[k' v'] m IH]; simpl.
  - destruct (String.eqb_spec k0 k); congruence.
  - destruct (String.eqb_spec k k'); simpl.
    + subst k'. destruct (String.eqb_spec k0 k); congruence.
    + now rewrite IH.
Qed.

Lemma set_fresh (V : Type) (k : Ref) (v : V) (m : IdMap.t V) :
  IdMap.get k m = None -> IdMap.set k v m = m ++ [(k, v)].
Proof.
  induction m as [|[k' v'] m IH]; simpl; auto.
  destruct (String.eqb k k'); intros H; [discriminate|].
  now rewrite IH.
Qed.

Lemma size_set_fresh (V : Type) (k : Ref) (v : V) (m : IdMap.t V) :
  IdMap.get k m = None -> IdMap.size (IdMap.set k v m) = S (IdMap.size m).
Proof.
  intros H. rewrite set_fresh by assumption.
  unfold IdMap.size. rewrite length_app. simpl. lia.
Qed.

Lemma get_None_keys (V : Type) (k : Ref) (m : IdMap.t V) :
  IdMap.get k m = None <-> ~ In k (IdMap.keys m).
Proof.
  induction m as [|[k' v'] m IH]; simpl.
  - tauto.
  - destruct (String.eqb_spec k k').
    + split; [discriminate | intros H; exfalso; apply H; auto].
    + rewrite IH. split; [intros H [E|E]; [congruence | tauto] | tauto].
Qed.

Lemma get_delete_eq (V : Type) (k : Ref) (m : IdMap.t V) :
  IdMap.get k (IdMap.delete k m) = None.
Proof.
  induction m as [|[k' v'] m IH]; simpl; auto.
  destruct (String.eqb k k') eqn:E; simpl; auto.
  now rewrite E.
Qed.

Lemma get_delete_ne (V : Type) (k k0 : Ref) (m : IdMap.t V) :
  k0 <> k -> IdMap.get k0 (IdMap.delete k m) = IdMap.get k0 m.
Proof.
  intros Hne. induction m as [|[k' v'] m IH]; simpl; auto.
  destruct (String.eqb_spec k k'); simpl.
  - subst k'. destruct (String.eqb_spec k0 k); congruence.
  - now rewrite IH.
Qed.

Lemma wf_set (V : Type) (k : Ref) (v : V) (m : IdMap.t V) :
  IdMap.wf m -> IdMap.wf (IdMap.set k v m).
Proof.
  unfold IdMap.wf. induction m as [|[k' v'] m IH]; simpl; intros H.
  - constructor; [simpl; tauto | constructor].
  - inversion H as [|? ? Hn Hd]; subst.
    destruct (String.eqb_spec k k'); simpl.
    + constructor; assumption.
    + constructor; [|auto].
      rewrite <- get_None_keys in *.
      rewrite get_set_ne by congruence. assumption.
Qed.

Lemma ref_has_In (x : Ref) (s : RefSet) : ref_has x s = true <-> In x s.
Proof.
  unfold ref_has, JSet.has. rewrite existsb_exists. split.
  - intros [y [Hy E]]. apply String.eqb_eq in E. now subst.
  - intros H. exists x. split; [assumption | apply String.eqb_refl].
Qed.

Lemma includes_In (l : list Ref) (id : Ref) : includes l id = true <-> In id l.
Proof. apply ref_has_In. Qed.

Lemma ref_add_In (x y : Ref) (s : RefSet) :
  In y (ref_add x s) <-> y = x \/ In y s.
Proof.
  unfold ref_add, JSet.add. fold (ref_has x s).
  destruct (ref_has x s) eqn:E.
  - apply ref_has_In in E. split; [tauto | intros [->|]; assumption].
  - rewrite in_app_iff. simpl. intuition congruence.
Qed.

Lemma ref_add_fresh (x : Ref) (s : RefSet) :
  ~ In x s -> ref_add x s = s ++ [x].
Proof.
  intros H. unfold ref_add, JSet.add. fold (ref_has x s).
  destruct (ref_has x s) eqn:E; [|reflexivity].
  apply ref_has_In in E. contradiction.
Qed.

(** ** Running the monad *)

Lemma app_one_two (A : Type) (tr : list A) (a : A) (l : list A) :
  (tr ++ [a]) ++ l = tr ++ a :: l.
Proof. now rewrite <- app_assoc. Qed.

Lemma length_app_one (A : Type) (tr : list A) (a : A) :
  length (tr ++ [a]) = S (length tr).
Proof. rewrite length_app. simpl. lia. Qed.

Ltac unfold_m :=
  unfold bind, ret, get, modify, emit, now, throw, try_catch in *.

Lemma forEach_emit (A : Type) (f : A -> Event) (l : list A) (c : Comp) (tr : Trace) :
  forEach l (fun x => emit (f x)) c tr = (Ok tt, c, tr ++ map f l).
Proof.
  revert tr. induction l as [|x l IH]; intros tr; simpl.
  - unfold ret. now rewrite app_nil_r.
  - unfold bind, emit. rewrite IH. now rewrite app_one_two.
Qed.

Lemma await_run (env : Env) (p : Promise) (c : Comp) (tr : Trace) :
  await env p c tr =
  match rejection env (length tr) p with
  | None => (Ok tt, c, tr ++ map (fun call => Settled call None) p)
  | Some (call, err) => (Thrown err, c, tr ++ [Settled call (Some err)])
  end.
Proof.
  unfold await, bind, now.
  destruct (rejection env (length tr) p) as [[call err]|].
  - reflexivity.
  - apply forEach_emit.
Qed.

Lemma rejection_None (env : Env) (n : nat) (p : Promise) :
  (forall call, In call p -> client_result env n call = None) ->
  rejection env n p = None.
Proof.
  induction p as [|call p IH]; simpl; intros H; auto.
  rewrite (H call) by auto. apply IH. intros; apply H; auto.
Qed.

Lemma rejection_None_inv (env : Env) (n : nat) (p : Promise) :
  rejection env n p = None ->
  forall call, In call p -> client_result env n call = None.
Proof.
  induction p as [|c0 p IH]; simpl; [contradiction|].
  destruct (client_result env n c0) as [e|] eqn:E; [discriminate|].
  intros H call [<-|Hin]; auto.
Qed.

Lemma rejection_Some (env : Env) (n : nat) (p : Promise) (call : Call) (err : Err) :
  rejection env n p = Some (call, err) ->
  In call p /\ client_result env n call = Some err.
Proof.
  induction p as [|call' p IH]; simpl; [discriminate|].
  destruct (client_result env n call') as [e|] eqn:E.
  - intros H. inversion H; subst. auto.
  - intros H. destruct (IH H). auto.
Qed.

(** A loop whose body leaves the variables alone and only makes the calls
    it returns makes the calls of all its rounds, in order. *)
Lemma collect_calls (A : Type) (body : A -> M Promise) (g : A -> Promise)
  (c : Comp) (l : list A) :
  (forall x tr, body x c tr = (Ok (g x), c, tr ++ map Issue (g x))) ->
  forall tr, collect l body c tr =
             (Ok (map g l), c, tr ++ map Issue (concat (map g l))).
Proof.
  intros Hbody. induction l as [|x l IH]; intros tr; simpl.
  - unfold ret. now rewrite app_nil_r.
  - unfold bind. rewrite Hbody, IH. unfold ret.
    now rewrite map_app, app_assoc.
Qed.

Lemma saveAttachment_run (doc : Attachment.t) (c : Comp) (tr : Trace) :
  saveAttachment doc c tr =
  (Ok (saveAttachment_calls c doc), c,
   tr ++ map Issue (saveAttachment_calls c doc)).
Proof.
  unfold saveAttachment, saveAttachment_calls, bind, get.
  destruct (negb (includes (existingAttachments c) (Attachment._id doc))).
  - reflexivity.
  - unfold ret. simpl. now rewrite app_nil_r.
Qed.

Lemma deleteAttachment_run (attachment : Attachment.t) (c : Comp) (tr : Trace) :
  deleteAttachment attachment c tr =
  (Ok [deleteAttachment_call c attachment], c,
   tr ++ [Issue (deleteAttachment_call c attachment)]).
Proof.
  unfold deleteAttachment, deleteAttachment_call, bind, get.
  destruct (ref_has (Attachment._id attachment) (originalAttachments c));
    reflexivity.
Qed.

Lemma concat_map_singleton (A B : Type) (f : A -> B) (l : list A) :
  concat (map (fun x => [f x]) l) = map f l.
Proof. induction l; simpl; congruence. Qed.

(** The commit makes all its calls in one go and hands back their joint
    promise; it awaits nothing itself. *)
Lemma createAttachments_run (c : Comp) (tr : Trace) :
  createAttachments c tr =
  (Ok (createAttachments_calls c), set_saved true c,
   tr ++ map Issue (createAttachments_calls c)).
Proof.
  unfold createAttachments.
  unfold bind at 1. unfold modify at 1.
  unfold bind at 1. unfold get at 1.
  unfold bind at 1.
  rewrite (collect_calls Ref
             (fun p => c0 <- get ;;
                match IdMap.get p (attachments c0) with
                | Some attachment => saveAttachment attachment
                | None => ret []
                end)
             (fun p => match IdMap.get p (attachments c) with
                       | Some attachment => saveAttachment_calls c attachment
                       | None => []
                       end)).
  2:{ intros p tr0. unfold bind, get.
      change (attachments (set_saved true c)) with (attachments c).
      destruct (IdMap.get p (attachments c)) as [a|].
      - apply (saveAttachment_run a (set_saved true c) tr0).
      - unfold ret. simpl. now rewrite app_nil_r. }
  unfold bind at 1. unfold get at 1. unfold bind at 1.
  rewrite (collect_calls Attachment.t (fun p => deleteAttachment p)
             (fun p => [deleteAttachment_call c p])).
  2:{ intros a tr0. apply (deleteAttachment_run a (set_saved true c) tr0). }
  unfold ret, Promise_all, createAttachments_calls. simpl.
  rewrite concat_app, concat_map_singleton, flat_map_concat_map.
  rewrite <- app_assoc, <- map_app. reflexivity.
Qed.

Lemma onMessage_run (env : Env) (markup : Markup) (c : Comp) (tr : Trace) :
  onMessage env markup c tr =
  let calls := createAttachments_calls c in
  let c1 := set_saved true (set_loading true c) in
  let tr1 := tr ++ map Issue calls in
  match rejection env (length tr1) calls with
  | None =>
      (Ok tt, set_loading false c1,
       tr1 ++ map (fun call => Settled call None) calls
           ++ [Dispatch "message"
                 {| message := markup;
                    detail_attachments := IdMap.size (attachments c) |}])
  | Some (call, err) => (Thrown err, c1, tr1 ++ [Settled call (Some err)])
  end.
Proof.
  unfold onMessage.
  unfold bind at 1. unfold modify at 1.
  unfold bind at 1. rewrite createAttachments_run.
  unfold bind at 1. rewrite await_run.
  change (createAttachments_calls (set_loading true c))
    with (createAttachments_calls c).
  cbv zeta.
  destruct (rejection env (length (tr ++ map Issue (createAttachments_calls c)))
              (createAttachments_calls c)) as [[call err]|].
  - reflexivity.
  - unfold bind, modify, get, emit. simpl. now rewrite <- app_assoc.
Qed.

Lemma createAttachments_calls_save (c : Comp) (p : Ref) (a : Attachment.t) :
  In p (newAttachments c) ->
  IdMap.get p (attachments c) = Some a ->
  ~ In (Attachment._id a) (existingAttachments c) ->
  In (AddCollection attachment_class_Attachment (space c) (objectId c)
        (_class c) "attachments" a (Attachment._id a))
     (createAttachments_calls c).
Proof.
  intros Hp Ha Hex. unfold createAttachments_calls.
  apply in_or_app. left. apply in_flat_map. exists p. split; [assumption|].
  rewrite Ha. unfold saveAttachment_calls.
  destruct (includes (existingAttachments c) (Attachment._id a)) eqn:E.
  - apply includes_In in E. contradiction.
  - simpl. auto.
Qed.

Lemma createAttachments_calls_delete (c : Comp) (a : Attachment.t) :
  In a (removedAttachments c) ->
  In (deleteAttachment_call c a) (createAttachments_calls c).
Proof.
  intros Ha. unfold createAttachments_calls.
  apply in_or_app. right. now apply in_map.
Qed.

(** The commit makes no other call. *)
Lemma createAttachments_calls_inv (c : Comp) (call : Call) :
  In call (createAttachments_calls c) ->
  (exists p a,
      In p (newAttachments c) /\
      IdMap.get p (attachments c) = Some a /\
      ~ In (Attachment._id a) (existingAttachments c) /\
      call = AddCollection attachment_class_Attachment (space c)
               (objectId c) (_class c) "attachments" a (Attachment._id a)) \/
  (exists a,
      In a (removedAttachments c) /\
      call = deleteAttachment_call c a).
Proof.
  intros Hin. unfold createAttachments_calls in Hin.
  apply in_app_or in Hin. destruct Hin as [Hin|Hin].
  - left. apply in_flat_map in Hin. destruct Hin as (p & Hp & Hin).
    destruct (IdMap.get p (attachments c)) as [a|] eqn:E; [|contradiction].
    unfold saveAttachment_calls in Hin.
    destruct (includes (existingAttachments c) (Attachment._id a)) eqn:Hi;
      simpl in Hin; [contradiction|].
    destruct Hin as [<-|[]]. exists p, a.
    repeat split; auto. intros Hex. apply includes_In in Hex. congruence.
  - right. apply in_map_iff in Hin. destruct Hin as (a & <- & Ha). eauto.
Qed.

Lemma deleteAttachment_call_original (c : Comp) (a : Attachment.t) :
  In (Attachment._id a) (originalAttachments c) ->
  deleteAttachment_call c a =
  RemoveCollection (Attachment._class a) (Attachment.space a)
    (Attachment._id a) (Attachment.attachedTo a)
    (Attachment.attachedToClass a) "attachments".
Proof.
  intros H. apply ref_has_In in H. unfold deleteAttachment_call.
  now rewrite H.
Qed.

Lemma deleteAttachment_call_staged (c : Comp) (a : Attachment.t) :
  ~ In (Attachment._id a) (originalAttachments c) ->
  deleteAttachment_call c a = DeleteFile (Attachment.file a).
Proof.
  intros H. unfold deleteAttachment_call.
  destruct (ref_has (Attachment._id a) (originalAttachments c)) eqn:E;
    [|reflexivity].
  apply ref_has_In in E. contradiction.
Qed.

(** ** Commit on submit *)

(** C1.  A submission commits the staged set before it dispatches: the
    handler makes a list [calls] of store and file calls which holds an
    [addCollection] for every id of [newAttachments] whose attachment is
    still in the map and is not known to be persisted (the work of
    [saveAttachment]), and for every member of [removedAttachments] a
    [removeCollection] when it is an original attachment, a [deleteFile]
    of its blob otherwise, and no other call.  All the calls are made
    first; when all have
    fulfilled, and only then, ['message'] is dispatched as the last effect,
    with the submitted markup and the size of the attachments map at that
    moment.  When a call is rejected the handler throws and dispatches
    nothing: the handler returns normally exactly when the client
    fulfils every call.  (The handler starts from an empty trace, so the
    client answers at moment [length calls], when all calls have been
    made.) *)
Theorem C1_commit_on_submit (env : Env) (c : Comp) (markup : Markup) :
  exists (calls : list Call) (r : Result unit) (c' : Comp) (tr : Trace),
    onMessage env markup c [] = (r, c', tr) /\
    (forall p a,
        In p (newAttachments c) ->
        IdMap.get p (attachments c) = Some a ->
        ~ In (Attachment._id a) (existingAttachments c) ->
        In (AddCollection attachment_class_Attachment (space c) (objectId c)
              (_class c) "attachments" a (Attachment._id a)) calls) /\
    (forall a,
        In a (removedAttachments c) ->
        (In (Attachment._id a) (originalAttachments c) ->
         In (RemoveCollection (Attachment._class a) (Attachment.space a)
               (Attachment._id a) (Attachment.attachedTo a)
               (Attachment.attachedToClass a) "attachments") calls) /\
        (~ In (Attachment._id a) (originalAttachments c) ->
         In (DeleteFile (Attachment.file a)) calls)) /\
    (forall call,
        In call calls ->
        (exists p a,
            In p (newAttachments c) /\
            IdMap.get p (attachments c) = Some a /\
            ~ In (Attachment._id a) (existingAttachments c) /\
            call = AddCollection attachment_class_Attachment (space c)
                     (objectId c) (_class c) "attachments" a
                     (Attachment._id a)) \/
        (exists a,
            In a (removedAttachments c) /\
            call = deleteAttachment_call c a)) /\
    ((r = Ok tt /\
      tr = map Issue calls
           ++ map (fun call => Settled call None) calls
           ++ [Dispatch "message"
                 {| message := markup;
                    detail_attachments := IdMap.size (attachments c') |}])
     \/
     (exists call err,
         In call calls /\ client_result env (length calls) call = Some err /\
         r = Thrown err /\
         tr = map Issue calls ++ [Settled call (Some err)])) /\
    (r = Ok tt <->
     forall call, In call calls ->
                  client_result env (length calls) call = None).
Proof.
  pose proof (onMessage_run env markup c []) as Hrun. cbv zeta in Hrun.
  simpl app in Hrun. rewrite length_map in Hrun.
  exists (createAttachments_calls c).
  destruct (rejection env (length (createAttachments_calls c))
              (createAttachments_calls c)) as [[call err]|] eqn:Hrej.
  - apply rejection_Some in Hrej. destruct Hrej as [Hin Herr].
    do 3 eexists. split; [exact Hrun|].
    split; [intros p a Hp Ha Hex; eapply createAttachments_calls_save; eassumption|].
    split.
    { intros a Ha. split; intros Ho.
      - rewrite <- (deleteAttachment_call_original c a Ho).
        now apply createAttachments_calls_delete.
      - rewrite <- (deleteAttachment_call_staged c a Ho).
        now apply createAttachments_calls_delete. }
    split; [apply createAttachments_calls_inv|].
    split.
    + right. exists call, err. auto.
    + split; [discriminate|].
      intros Hall. rewrite (Hall call Hin) in Herr. discriminate.
  - do 3 eexists. split; [exact Hrun|].
    split; [intros p a Hp Ha Hex; eapply createAttachments_calls_save; eassumption|].
    split.
    { intros a Ha. split; intros Ho.
      - rewrite <- (deleteAttachment_call_original c a Ho).
        now apply createAttachments_calls_delete.
      - rewrite <- (deleteAttachment_call_staged c a Ho).
        now apply createAttachments_calls_delete. }
    split; [apply createAttachments_calls_inv|].
    split; [left; split; reflexivity|].
    split; [intros _; now apply rejection_None_inv | reflexivity].
Qed.

(** ** Reconciliation against the live query *)

(** C3.  [existingAttachments] holds the ids the live query
    [existingAttachmentsQuery] answers with, and that query asks for the
    attachments of the current [space], [objectId] and [_class] whose id is
    a key of the attachments map.  [saveAttachment doc] adds a collection
    record exactly when [doc._id] is not among them, and otherwise has no
    effect at all. *)
Theorem C3_saveAttachment_reconciles (c : Comp) (doc : Attachment.t) (tr : Trace) :
  let add :=
    AddCollection attachment_class_Attachment (space c) (objectId c)
      (_class c) "attachments" doc (Attachment._id doc) in
  reactive_existingAttachmentsQuery c tr =
    (Ok tt, c,
     tr ++ [LiveQuery existingAttachmentsQuery attachment_class_Attachment
              {| q_space := Some (space c);
                 q_attachedTo := Some (objectId c);
                 q_attachedToClass := Some (_class c);
                 q__id_in := Some (IdMap.keys (attachments c)) |} []]) /\
  (forall res,
      existingAttachments_callback res c tr =
      (Ok tt, set_existingAttachments (map Attachment._id res) c, tr)) /\
  exists p tr',
    saveAttachment doc c tr = (Ok p, c, tr') /\
    (tr' = tr ++ [Issue add] <-> ~ In (Attachment._id doc) (existingAttachments c)) /\
    (p = [add] <-> ~ In (Attachment._id doc) (existingAttachments c)) /\
    (In (Attachment._id doc) (existingAttachments c) -> tr' = tr /\ p = []).
Proof.
  cbv zeta. split; [reflexivity|]. split; [reflexivity|].
  rewrite saveAttachment_run. unfold saveAttachment_calls.
  destruct (includes (existingAttachments c) (Attachment._id doc)) eqn:E; simpl.
  - apply includes_In in E. do 2 eexists. split; [reflexivity|].
    rewrite app_nil_r. repeat split; try tauto; try discriminate.
    intros H. exfalso.
    apply (f_equal (@length Event)) in H. rewrite length_app_one in H. lia.
  - assert (Hn : ~ In (Attachment._id doc) (existingAttachments c)).
    { intros H. apply includes_In in H. congruence. }
    do 2 eexists. split; [reflexivity|]. tauto.
Qed.

(** ** Rollback on teardown *)

Lemma forEach_calls (A : Type) (body : A -> M unit) (g : A -> list Call)
  (c : Comp) (l : list A) :
  (forall x tr, body x c tr = (Ok tt, c, tr ++ map Issue (g x))) ->
  forall tr, forEach l body c tr = (Ok tt, c, tr ++ map Issue (flat_map g l)).
Proof.
  intros Hbody. induction l as [|x l IH]; intros tr; simpl.
  - unfold ret. now rewrite app_nil_r.
  - unfold bind. rewrite Hbody, IH. now rewrite map_app, app_assoc.
Qed.

Lemma onDestroy_rollback (c : Comp) (tr : Trace) :
  saved c = false -> shouldSaveDraft c = false ->
  onDestroy c tr = (Ok tt, c, tr ++ map Issue (rollback_calls c)).
Proof.
  intros Hs Hd. unfold onDestroy.
  unfold bind at 1. unfold get at 1. rewrite Hs, Hd. cbn [negb andb].
  unfold bind at 1.
  rewrite (forEach_calls Ref _
             (fun p => match IdMap.get p (attachments c) with
                       | Some attachment => [deleteAttachment_call c attachment]
                       | None => []
                       end)).
  2:{ intros p tr0. unfold bind, get.
      destruct (IdMap.get p (attachments c)) as [a|].
      - unfold void, try_catch, bind. rewrite deleteAttachment_run. reflexivity.
      - unfold ret. simpl. now rewrite app_nil_r. }
  unfold bind, get. rewrite Hs, Hd. reflexivity.
Qed.

Lemma onDestroy_commit (c : Comp) (tr : Trace) :
  saved c = false -> shouldSaveDraft c = true ->
  onDestroy c tr =
  (Ok tt, set_saved true c, tr ++ map Issue (createAttachments_calls c)).
Proof.
  intros Hs Hd. unfold onDestroy.
  unfold bind at 1. unfold get at 1. rewrite Hs, Hd. cbn [negb andb].
  unfold bind at 1. unfold ret at 1.
  unfold bind, get. rewrite Hs, Hd. cbn [negb andb].
  unfold void, try_catch, bind. rewrite createAttachments_run. reflexivity.
Qed.

Lemma onDestroy_saved (c : Comp) (tr : Trace) :
  saved c = true -> onDestroy c tr = (Ok tt, c, tr).
Proof.
  intros Hs. unfold onDestroy, bind, get, ret. rewrite Hs. cbn [negb andb].
  rewrite Hs. reflexivity.
Qed.

(** C2.  When the component is destroyed before any commit ([saved] is
    false): without draft saving, every attachment whose id is in
    [newAttachments] and which is still in the map is rolled back, by
    [removeCollection] when its id is in [originalAttachments] and by
    [deleteFile] of its blob otherwise, and the teardown does nothing else;
    with draft saving, the teardown is the commit [createAttachments]: it
    sets [saved] and makes, without awaiting them, the calls of the
    commit and no other, which are an [addCollection] for every staged id
    still in the map and not known to be persisted, and the removal of
    every member of [removedAttachments]. *)
Theorem C2_rollback_on_teardown (c : Comp) :
  saved c = false ->
  (shouldSaveDraft c = false ->
   exists tr,
     onDestroy c [] = (Ok tt, c, tr) /\
     (forall p a,
         In p (newAttachments c) ->
         IdMap.get p (attachments c) = Some a ->
         (In (Attachment._id a) (originalAttachments c) ->
          In (Issue (RemoveCollection (Attachment._class a) (Attachment.space a)
                       (Attachment._id a) (Attachment.attachedTo a)
                       (Attachment.attachedToClass a) "attachments")) tr) /\
         (~ In (Attachment._id a) (originalAttachments c) ->
          In (Issue (DeleteFile (Attachment.file a))) tr)) /\
     (forall e, In e tr ->
                exists p a,
                  In p (newAttachments c) /\
                  IdMap.get p (attachments c) = Some a /\
                  e = Issue (deleteAttachment_call c a))) /\
  (shouldSaveDraft c = true ->
   exists calls,
     createAttachments c [] = (Ok calls, set_saved true c, map Issue calls) /\
     onDestroy c [] = (Ok tt, set_saved true c, map Issue calls) /\
     (forall p a,
         In p (newAttachments c) ->
         IdMap.get p (attachments c) = Some a ->
         ~ In (Attachment._id a) (existingAttachments c) ->
         In (AddCollection attachment_class_Attachment (space c) (objectId c)
               (_class c) "attachments" a (Attachment._id a)) calls) /\
     (forall a,
         In a (removedAttachments c) ->
         (In (Attachment._id a) (originalAttachments c) ->
          In (RemoveCollection (Attachment._class a) (Attachment.space a)
                (Attachment._id a) (Attachment.attachedTo a)
                (Attachment.attachedToClass a) "attachments") calls) /\
         (~ In (Attachment._id a) (originalAttachments c) ->
          In (DeleteFile (Attachment.file a)) calls)) /\
     (forall call,
         In call calls ->
         (exists p a,
             In p (newAttachments c) /\
             IdMap.get p (attachments c) = Some a /\
             ~ In (Attachment._id a) (existingAttachments c) /\
             call = AddCollection attachment_class_Attachment (space c)
                      (objectId c) (_class c) "attachments" a
                      (Attachment._id a)) \/
         (exists a,
             In a (removedAttachments c) /\
             call = deleteAttachment_call c a))).
Proof.
  intros Hs. split; intros Hd.
  - exists (map Issue (rollback_calls c)).
    split; [apply (onDestroy_rollback c [] Hs Hd)|].
    assert (Hin : forall p a, In p (newAttachments c) ->
                              IdMap.get p (attachments c) = Some a ->
                              In (Issue (deleteAttachment_call c a))
                                 (map Issue (rollback_calls c))).
    { intros p a Hp Ha. apply in_map. unfold rollback_calls.
      apply in_flat_map. exists p. split; [assumption|].
      rewrite Ha. simpl. auto. }
    split.
    + intros p a Hp Ha. split; intros Ho.
      * rewrite <- (deleteAttachment_call_original c a Ho). eauto.
      * rewrite <- (deleteAttachment_call_staged c a Ho). eauto.
    + intros e He. apply in_map_iff in He. destruct He as [call [<- Hc]].
      unfold rollback_calls in Hc. apply in_flat_map in Hc.
      destruct Hc as [p [Hp Hc]]. exists p.
      destruct (IdMap.get p (attachments c)) as [a|]; [|contradiction].
      exists a. destruct Hc as [<-|[]]. auto.
  - exists (createAttachments_calls c).
    split; [apply createAttachments_run|].
    split; [apply (onDestroy_commit c [] Hs Hd)|].
    split; [intros p a Hp Ha Hex; eapply createAttachments_calls_save; eassumption|].
    split.
    { intros a Ha. split; intros Ho.
      - rewrite <- (deleteAttachment_call_original c a Ho).
        now apply createAttachments_calls_delete.
      - rewrite <- (deleteAttachment_call_staged c a Ho).
        now apply createAttachments_calls_delete. }
    apply createAttachments_calls_inv.
Qed.

Lemma C2_rollback_on_teardown_witness :
  exists tr,
    onDestroy (two_staged false) [] = (Ok tt, two_staged false, tr) /\
    In (Issue (DeleteFile "blob-a.png")) tr.
Proof.
  destruct (C2_rollback_on_teardown (two_staged false) eq_refl) as [H _].
  destruct (H eq_refl) as (tr & Hrun & Hin & _).
  exists tr. split; [exact Hrun|].
  destruct (Hin "id-5" attachment_png) as [_ Hfile].
  - vm_compute. auto.
  - reflexivity.
  - apply Hfile. vm_compute. tauto.
Defined.

(** ** Staging an upload *)

Ltac norm_trace :=
  repeat rewrite length_app_one; repeat rewrite <- app_assoc; simpl app.

(** What [createAttachment] does, by the answers of the file service. *)
Lemma createAttachment_run (env : Env) (file : File.t) (c : Comp) (tr : Trace) :
  createAttachment env file c tr =
  match uploadFile_result env (S (length tr)) file with
  | inl err =>
      (Ok tt, c,
       tr ++ [Issue (UploadFile file);
              Settled (UploadFile file) (Some err);
              SetPlatformStatus (unknownError err)])
  | inr uuid =>
      match getFileMetadata_result env (3 + length tr) file uuid with
      | inl err =>
          (Ok tt, c,
           tr ++ [Issue (UploadFile file);
                  Settled (UploadFile file) None;
                  Issue (GetFileMetadata file uuid);
                  Settled (GetFileMetadata file uuid) (Some err);
                  SetPlatformStatus (unknownError err)])
      | inr metadata =>
          let _id := generateId_result env (4 + length tr) in
          let c1 :=
            set_newAttachments (ref_add _id (newAttachments c))
              (set_attachments
                 (IdMap.set _id (staged c _id file uuid metadata) (attachments c))
                 c) in
          let calls :=
            [Issue (UploadFile file);
             Settled (UploadFile file) None;
             Issue (GetFileMetadata file uuid);
             Settled (GetFileMetadata file uuid) None] in
          if shouldSaveDraft c then
            (Ok tt,
             set_draftAttachments (Some (Object_fromEntries (attachments c1))) c1,
             tr ++ calls
                ++ [DraftSave (draftKey c) (Object_fromEntries (attachments c1))])
          else (Ok tt, c1, tr ++ calls)
      end
  end.
Proof.
  unfold createAttachment, try_catch, await_uploadFile, await_getFileMetadata,
    generateId, saveDraft, bind, emit, now, ret, throw, modify, get.
  rewrite length_app_one.
  destruct (uploadFile_result env (S (length tr)) file) as [err|uuid].
  - norm_trace. reflexivity.
  - replace (length (((tr ++ [Issue (UploadFile file)])
                      ++ [Settled (UploadFile file) None])
                     ++ [Issue (GetFileMetadata file uuid)]))
      with (3 + length tr) by (rewrite !length_app; simpl; lia).
    destruct (getFileMetadata_result env (3 + length tr) file uuid)
      as [err|metadata].
    + norm_trace. reflexivity.
    + replace (length ((((tr ++ [Issue (UploadFile file)])
                          ++ [Settled (UploadFile file) None])
                         ++ [Issue (GetFileMetadata file uuid)])
                        ++ [Settled (GetFileMetadata file uuid) None]))
        with (4 + length tr) by (rewrite !length_app; simpl; lia).
      cbn [shouldSaveDraft set_newAttachments set_attachments].
      destruct (shouldSaveDraft c); norm_trace; reflexivity.
Qed.

(** C4.  When [uploadFile] and [getFileMetadata] both succeed for a file
    and [generateId] answers with an id that is not a key of the map,
    [createAttachment] adds exactly one entry to the attachments map, under
    that id: the other keys keep their values and the size grows by one.
    The entry carries the file's name, type, size and modification time, the
    uploaded blob's uuid as [file], and the component's [objectId], [_class]
    and [space]; the id is added to [newAttachments].  (Started after [tr],
    the function gets the answer of the upload at moment [S (length tr)],
    that of the metadata at [3 + length tr] and the id at
    [4 + length tr].) *)
Theorem C4_createAttachment_stages (env : Env) (file : File.t) (c : Comp)
  (tr : Trace) (uuid : Ref) (metadata : option BlobMetadata) :
  uploadFile_result env (S (length tr)) file = inr uuid ->
  getFileMetadata_result env (3 + length tr) file uuid = inr metadata ->
  IdMap.get (generateId_result env (4 + length tr)) (attachments c) = None ->
  exists c' tr' a,
    createAttachment env file c tr = (Ok tt, c', tr') /\
    attachments c' =
      attachments c ++ [(generateId_result env (4 + length tr), a)] /\
    IdMap.get (generateId_result env (4 + length tr)) (attachments c') = Some a /\
    (forall k, k <> generateId_result env (4 + length tr) ->
               IdMap.get k (attachments c') = IdMap.get k (attachments c)) /\
    IdMap.size (attachments c') = S (IdMap.size (attachments c)) /\
    Attachment._id a = generateId_result env (4 + length tr) /\
    Attachment.name a = File.name file /\
    Attachment.type a = File.type file /\
    Attachment.size a = File.size file /\
    Attachment.lastModified a = File.lastModified file /\
    Attachment.file a = uuid /\
    Attachment.attachedTo a = objectId c /\
    Attachment.attachedToClass a = _class c /\
    Attachment.space a = space c /\
    (forall k, In k (newAttachments c') <->
               k = generateId_result env (4 + length tr) \/
               In k (newAttachments c)).
Proof.
  intros Hup Hmeta Hfresh.
  pose proof (createAttachment_run env file c tr) as Hrun.
  rewrite Hup, Hmeta in Hrun. cbv zeta in Hrun.
  set (_id := generateId_result env (4 + length tr)) in *.
  exists (snd (fst (createAttachment env file c tr))),
         (snd (createAttachment env file c tr)),
         (staged c _id file uuid metadata).
  assert (Hatt : attachments (snd (fst (createAttachment env file c tr))) =
                 IdMap.set _id (staged c _id file uuid metadata) (attachments c)).
  { rewrite Hrun. destruct (shouldSaveDraft c); reflexivity. }
  assert (Hnew : newAttachments (snd (fst (createAttachment env file c tr))) =
                 ref_add _id (newAttachments c)).
  { rewrite Hrun. destruct (shouldSaveDraft c); reflexivity. }
  split.
  { rewrite Hrun. destruct (shouldSaveDraft c); reflexivity. }
  rewrite Hatt, Hnew.
  split; [now apply set_fresh|].
  split; [apply get_set_eq|].
  split; [intros k Hk; now apply get_set_ne|].
  split; [now apply size_set_fresh|].
  repeat (split; [reflexivity|]).
  intros k. apply ref_add_In.
Qed.

Lemma C4_createAttachment_stages_witness :
  exists c' tr' a,
    createAttachment env_fulfil file_png (created false) [] = (Ok tt, c', tr') /\
    attachments c' = [("id-4", a)] /\
    Attachment.file a = "blob-a.png" /\
    In "id-4" (newAttachments c').
Proof.
  destruct (C4_createAttachment_stages env_fulfil file_png (created false) []
              "blob-a.png" None eq_refl eq_refl eq_refl)
    as (c' & tr' & a & Hrun & Hatt & _ & _ & _ & _ & _ & _ & _ & _ & Hfile
        & _ & _ & _ & Hnew).
  exists c', tr', a. repeat split; try assumption.
  apply Hnew. left. reflexivity.
Defined.

(** ** Try once, log status *)

(** C5.  When the upload of a file, or the retrieval of its metadata, is
    rejected with [err], [createAttachment] catches the rejection and hands
    [unknownError err] to [setPlatformStatus] as its last effect.  The
    upload is called once and not again, nothing is written to the drafts,
    and the component is left as it was: the attachments map,
    [newAttachments] and the saved draft are unchanged.  (The moments of
    the answers are those of C4.) *)
Theorem C5_createAttachment_try_once (env : Env) (file : File.t) (c : Comp)
  (tr : Trace) (err : Err) :
  uploadFile_result env (S (length tr)) file = inl err \/
  (exists uuid,
      uploadFile_result env (S (length tr)) file = inr uuid /\
      getFileMetadata_result env (3 + length tr) file uuid = inl err) ->
  exists c' emitted,
    createAttachment env file c tr = (Ok tt, c', tr ++ emitted) /\
    c' = c /\
    attachments c' = attachments c /\
    newAttachments c' = newAttachments c /\
    draftAttachments c' = draftAttachments c /\
    (emitted = [Issue (UploadFile file);
                Settled (UploadFile file) (Some err);
                SetPlatformStatus (unknownError err)]
     \/
     exists uuid,
       emitted = [Issue (UploadFile file);
                  Settled (UploadFile file) None;
                  Issue (GetFileMetadata file uuid);
                  Settled (GetFileMetadata file uuid) (Some err);
                  SetPlatformStatus (unknownError err)]) /\
    count_occ Nat.eq_dec
      (map (fun e => match e with
                     | Issue (UploadFile _) => 1
                     | _ => 0
                     end) emitted) 1 = 1 /\
    existsb is_draft_save emitted = false.
Proof.
  intros [Hup | [uuid [Hup Hmeta]]];
    pose proof (createAttachment_run env file c tr) as Hrun;
    rewrite Hup in Hrun; try rewrite Hmeta in Hrun;
    exists c; eexists; (split; [exact Hrun|]);
    repeat (split; [reflexivity|]).
  - split; [left; reflexivity|]. split; reflexivity.
  - split; [right; exists uuid; reflexivity|]. split; reflexivity.
Qed.

Lemma C5_createAttachment_try_once_witness :
  createAttachment env_upload_rejects file_png (two_staged false) [] =
  (Ok tt, two_staged false,
   [Issue (UploadFile file_png);
    Settled (UploadFile file_png) (Some "offline");
    SetPlatformStatus (unknownError "offline")]).
Proof.
  destruct (C5_createAttachment_try_once env_upload_rejects file_png
              (two_staged false) [] "offline" (or_introl eq_refl))
    as (c' & emitted & Hrun & -> & _ & _ & _ & [-> | [uuid ->]] & _).
  - exact Hrun.
  - exfalso.
    pose proof (createAttachment_run env_upload_rejects file_png
                  (two_staged false) []) as Hrun'.
    simpl in Hrun'. rewrite Hrun in Hrun'. discriminate.
Defined.

(** ** Draft staging *)

Lemma removeAttachment_run (env : Env) (a : Attachment.t) (c : Comp) (tr : Trace) :
  removeAttachment env a c tr =
  let c1 := removed a c in
  if shouldSaveDraft c then
    let calls := createAttachments_calls c1 in
    let tr1 := tr ++ map Issue calls in
    match rejection env (length tr1) calls with
    | None =>
        let draft := Object_fromEntries (attachments c1) in
        (Ok tt, set_draftAttachments (Some draft) (set_saved true c1),
         tr1 ++ map (fun call => Settled call None) calls
             ++ [DraftSave (draftKey c) draft])
    | Some (call, err) =>
        (Thrown err, set_saved true c1, tr1 ++ [Settled call (Some err)])
    end
  else (Ok tt, c1, tr).
Proof.
  unfold removeAttachment, bind, modify, get, ret.
  change (set_attachments
            (IdMap.delete (Attachment._id a)
               (attachments
                  (set_removedAttachments
                     (attachment_add a (removedAttachments c)) c)))
            (set_removedAttachments (attachment_add a (removedAttachments c)) c))
    with (removed a c).
  change (shouldSaveDraft (removed a c)) with (shouldSaveDraft c).
  cbv zeta. destruct (shouldSaveDraft c) eqn:Hd.
  - rewrite createAttachments_run, await_run.
    destruct (rejection env
                (length (tr ++ map Issue (createAttachments_calls (removed a c))))
                (createAttachments_calls (removed a c))) as [[call err]|].
    + reflexivity.
    + unfold saveDraft, bind, get, modify, emit.
      change (shouldSaveDraft (set_saved true (removed a c)))
        with (shouldSaveDraft c).
      rewrite Hd. now rewrite <- app_assoc.
  - unfold saveDraft, bind, get.
    change (shouldSaveDraft (removed a c)) with (shouldSaveDraft c).
    now rewrite Hd.
Qed.

Lemma forEach_modify (A : Type) (f : A -> Comp -> Comp) (l : list A)
  (c : Comp) (tr : Trace) :
  forEach l (fun x => modify (f x)) c tr =
  (Ok tt, fold_left (fun c x => f x c) l c, tr).
Proof.
  revert c. induction l as [|x l IH]; intros c; simpl.
  - reflexivity.
  - unfold bind, modify at 1. apply IH.
Qed.

Lemma fold_set_attachments (A : Type) (g : A -> IdMap.t Attachment.t -> IdMap.t Attachment.t)
  (l : list A) (c : Comp) :
  fold_left (fun c x => set_attachments (g x (attachments c)) c) l c =
  set_attachments (fold_left (fun m x => g x m) l (attachments c)) c.
Proof.
  revert c. induction l as [|x l IH]; intros c; simpl.
  - now destruct c.
  - rewrite IH. reflexivity.
Qed.

Lemma fold_set_newAttachments (A : Type) (g : A -> RefSet -> RefSet)
  (l : list A) (c : Comp) :
  fold_left (fun c x => set_newAttachments (g x (newAttachments c)) c) l c =
  set_newAttachments (fold_left (fun s x => g x s) l (newAttachments c)) c.
Proof.
  revert c. induction l as [|x l IH]; intros c; simpl.
  - now destruct c.
  - rewrite IH. reflexivity.
Qed.

(** Entering the entries of a record with distinct keys into a map that
    has none of them appends them in order. *)
Lemma fold_set_wf (V : Type) (d acc : IdMap.t V) :
  NoDup (IdMap.keys (acc ++ d)) ->
  fold_left (fun m e => IdMap.set (fst e) (snd e) m) d acc = acc ++ d.
Proof.
  revert acc. induction d as [|[k v] d IH]; intros acc Hnd; simpl.
  - now rewrite app_nil_r.
  - assert (Hfresh : IdMap.get k acc = None).
    { apply get_None_keys. unfold IdMap.keys in *. rewrite map_app in Hnd.
      simpl in Hnd. apply NoDup_remove_2 in Hnd.
      intros Hin. apply Hnd. apply in_or_app. now left. }
    rewrite set_fresh by assumption.
    rewrite IH; rewrite <- app_assoc; [reflexivity | exact Hnd].
Qed.

Lemma fold_ref_add_wf (d acc : list Ref) :
  NoDup (acc ++ d) ->
  fold_left (fun s k => ref_add k s) d acc = acc ++ d.
Proof.
  revert acc. induction d as [|k d IH]; intros acc Hnd; simpl.
  - now rewrite app_nil_r.
  - assert (Hfresh : ~ In k acc).
    { apply NoDup_remove_2 in Hnd. intros Hin. apply Hnd.
      apply in_or_app. now left. }
    rewrite ref_add_fresh by assumption.
    rewrite IH; rewrite <- app_assoc; [reflexivity | exact Hnd].
Qed.

Lemma insert_index_perm (x : N * (Ref * Attachment.t))
  (l : list (N * (Ref * Attachment.t))) :
  Permutation (insert_index x l) (x :: l).
Proof.
  induction l as [|y l IH]; simpl.
  - apply Permutation_refl.
  - destruct (fst x <=? fst y)%N.
    + apply Permutation_refl.
    + eapply perm_trans; [apply perm_skip, IH | apply perm_swap].
Qed.

Lemma sort_index_perm (l : list (N * (Ref * Attachment.t))) :
  Permutation (sort_index l) l.
Proof.
  induction l as [|x l IH]; simpl.
  - apply Permutation_refl.
  - eapply perm_trans; [apply insert_index_perm | now apply perm_skip].
Qed.

Lemma indexed_snd (o : list (Ref * Attachment.t)) :
  map snd (indexed o) = filter (fun e => is_array_index (fst e)) o.
Proof.
  unfold Ref in *. induction o as [|e o IH]; [reflexivity|].
  unfold indexed in *. cbn [flat_map filter]. unfold is_array_index at 1.
  destruct (array_index (fst e)); simpl; [f_equal|]; exact IH.
Qed.

Lemma filter_partition_perm (A : Type) (f : A -> bool) (l : list A) :
  Permutation (filter f l ++ filter (fun x => negb (f x)) l) l.
Proof.
  induction l as [|x l IH]; simpl.
  - apply Permutation_refl.
  - destruct (f x); simpl.
    + now apply perm_skip.
    + apply Permutation_sym, Permutation_cons_app, Permutation_sym, IH.
Qed.

(** Enumeration reorders the properties and loses none. *)
Lemma enumerate_perm (o : list (Ref * Attachment.t)) :
  Permutation (enumerate o) o.
Proof.
  unfold enumerate.
  eapply perm_trans; [|apply (filter_partition_perm _
                                (fun e => is_array_index (fst e)))].
  apply Permutation_app_tail. rewrite <- indexed_snd.
  apply Permutation_map, sort_index_perm.
Qed.

(** Without array indices among the keys, enumeration order is creation
    order. *)
Lemma enumerate_plain (o : list (Ref * Attachment.t)) :
  Forall (fun k => array_index k = None) (IdMap.keys o) ->
  enumerate o = o.
Proof.
  unfold Ref in *. intros H.
  assert (Hi : indexed o = [] /\
               filter (fun e => negb (is_array_index (fst e))) o = o).
  { unfold indexed, is_array_index, IdMap.keys in *. unfold Ref in *.
    induction o as [|e o IH]; [split; reflexivity|].
    inversion H as [|? ? He Ho]; subst. destruct (IH Ho) as [I1 I2].
    cbn [flat_map filter]. rewrite He, I1, I2. split; reflexivity. }
  destruct Hi as [I1 I2]. unfold enumerate. now rewrite I1, I2.
Qed.

Lemma Object_fromEntries_perm (m : IdMap.t Attachment.t) :
  IdMap.wf m -> Permutation (Object_fromEntries m) m.
Proof.
  intros H. unfold Object_fromEntries.
  rewrite (fold_set_wf _ m []) by exact H. apply enumerate_perm.
Qed.

Lemma Object_fromEntries_wf (m : IdMap.t Attachment.t) :
  IdMap.wf m ->
  Forall (fun k => array_index k = None) (IdMap.keys m) ->
  Object_fromEntries m = m.
Proof.
  intros H Hplain. unfold Object_fromEntries.
  rewrite (fold_set_wf _ m []) by exact H. now apply enumerate_plain.
Qed.

Lemma wf_perm (m m' : IdMap.t Attachment.t) :
  Permutation m m' -> IdMap.wf m -> IdMap.wf m'.
Proof.
  unfold IdMap.wf, IdMap.keys. intros Hp H.
  eapply Permutation_NoDup; [apply Permutation_map, Hp | exact H].
Qed.

Lemma get_In (V : Type) (k : Ref) (v : V) (m : IdMap.t V) :
  IdMap.wf m -> (IdMap.get k m = Some v <-> In (k, v) m).
Proof.
  unfold IdMap.wf, IdMap.keys. induction m as [|[k' v'] m IH]; simpl.
  - intros _. split; [discriminate | contradiction].
  - intros H. inversion H as [|? ? Hn Hd]; subst.
    destruct (String.eqb_spec k k') as [->|Hne].
    + split.
      * intros E. inversion E. auto.
      * intros [E|Hin]; [now inversion E|].
        exfalso. apply Hn. apply in_map_iff. exists (k', v). auto.
    + rewrite (IH Hd). split; [auto|].
      intros [E|Hin]; [inversion E; congruence | exact Hin].
Qed.

(** Lookup does not depend on the order of the entries. *)
Lemma get_perm (m m' : IdMap.t Attachment.t) (k : Ref) :
  Permutation m m' -> IdMap.wf m -> IdMap.get k m' = IdMap.get k m.
Proof.
  intros Hp H. pose proof (wf_perm m m' Hp H) as H'.
  destruct (IdMap.get k m) as [v|] eqn:E.
  - apply (get_In _ k v m' H'). eapply Permutation_in; [exact Hp|].
    now apply (get_In _ k v m H).
  - destruct (IdMap.get k m') as [v|] eqn:E'; [|reflexivity].
    apply (get_In _ k v m' H') in E'.
    apply Permutation_sym in Hp.
    apply (Permutation_in _ Hp) in E'. apply (get_In _ k v m H) in E'.
    congruence.
Qed.

Lemma updateAttachments_draft (env : Env) (oid : Ref) (c : Comp) (tr : Trace)
  (d : AttachmentRecord) :
  shouldSaveDraft c = true ->
  draftsStore env (length tr) (draftKey c) = Some d ->
  updateAttachments env oid c tr =
  (Ok tt,
   set_removedAttachments []
     (set_originalAttachments []
        (set_newAttachments
           (fold_left (fun s e => ref_add (fst e) s) (Object_entries d) [])
           (set_attachments
              (fold_left (fun m e => IdMap.set (fst e) (snd e) m)
                 (Object_entries d) IdMap.clear)
              (set_draftAttachments (Some d) c)))),
   tr).
Proof.
  intros Hd Hdraft. unfold updateAttachments.
  unfold bind at 1. unfold get at 1.
  unfold bind at 1. unfold now at 1.
  rewrite Hdraft, Hd. cbv zeta.
  unfold bind at 1. unfold modify at 1.
  unfold bind at 1. unfold modify at 1.
  unfold bind at 1. unfold modify at 1.
  unfold bind at 1.
  rewrite (forEach_modify _
             (fun file c => set_attachments
                              (IdMap.set (fst file) (snd file) (attachments c)) c)).
  rewrite (fold_set_attachments _ (fun e m => IdMap.set (fst e) (snd e) m)).
  unfold bind at 1.
  rewrite (forEach_modify _
             (fun file c => set_newAttachments
                              (ref_add (fst file) (newAttachments c)) c)).
  rewrite (fold_set_newAttachments _ (fun e s => ref_add (fst e) s)).
  reflexivity.
Qed.

(** ** Awaiting: one call at a time, or a batch *)

Lemma pending_at_end_app (n : nat) (t1 t2 : Trace) :
  pending_at_end n (t1 ++ t2) = pending_at_end (pending_at_end n t1) t2.
Proof. apply fold_left_app. Qed.

Lemma max_pending_app (n : nat) (t1 t2 : Trace) :
  max_pending n (t1 ++ t2) =
  Nat.max (max_pending n t1) (max_pending (pending_at_end n t1) t2).
Proof.
  revert n. induction t1 as [|e t1 IH]; intros n; simpl.
  - destruct t2; simpl; lia.
  - rewrite IH. unfold pending_at_end. simpl. lia.
Qed.

Lemma one_at_a_time_nil : one_at_a_time [].
Proof. split; simpl; [lia | reflexivity]. Qed.

Lemma one_at_a_time_app (t1 t2 : Trace) :
  one_at_a_time t1 -> one_at_a_time t2 -> one_at_a_time (t1 ++ t2).
Proof.
  intros [H1 E1] [H2 E2]. split.
  - rewrite max_pending_app, E1. lia.
  - rewrite pending_at_end_app, E1. exact E2.
Qed.

Lemma max_pending_issues (n : nat) (calls : list Call) :
  max_pending n (map Issue calls) = n + length calls.
Proof.
  revert n. induction calls as [|call calls IH]; intros n; simpl.
  - lia.
  - rewrite IH. lia.
Qed.

Lemma forEach_emits (A : Type) (P : Trace -> Prop) (body : A -> M unit)
  (l : list A) :
  P [] ->
  (forall a b, P a -> P b -> P (a ++ b)) ->
  (forall x, emits P (body x)) ->
  emits P (forEach l body).
Proof.
  intros Hnil Happ Hbody. induction l as [|x l IH]; intros c tr; simpl.
  - exists c, []. split; [now rewrite app_nil_r | exact Hnil].
  - destruct (Hbody x c tr) as (c1 & ev1 & E1 & P1).
    destruct (IH c1 (tr ++ ev1)) as (c2 & ev2 & E2 & P2).
    exists c2, (ev1 ++ ev2). split; [|now apply Happ].
    unfold bind. rewrite E1, E2. now rewrite app_assoc.
Qed.

Lemma createAttachment_emits (env : Env) (file : File.t) :
  emits one_at_a_time (createAttachment env file).
Proof.
  intros c tr. rewrite createAttachment_run.
  destruct (uploadFile_result env (S (length tr)) file) as [err|uuid].
  - do 2 eexists. split; [reflexivity|]. split; simpl; [lia|reflexivity].
  - destruct (getFileMetadata_result env (3 + length tr) file uuid)
      as [err|metadata].
    + do 2 eexists. split; [reflexivity|]. split; simpl; [lia|reflexivity].
    + cbv zeta. destruct (shouldSaveDraft c).
      * do 2 eexists. split; [reflexivity|]. split; simpl; [lia|reflexivity].
      * do 2 eexists. split; [reflexivity|]. split; simpl; [lia|reflexivity].
Qed.

(** The indexed loop visits the files of the list in order. *)
Lemma for_index_item (body : File.t -> M unit) (l1 l2 : list File.t)
  (c : Comp) (tr : Trace) :
  forEach (seq (length l1) (length l2))
    (fun index => match nth_error (l1 ++ l2) index with
                  | Some file => body file
                  | None => ret tt
                  end) c tr =
  forEach l2 body c tr.
Proof.
  revert l1 c tr. induction l2 as [|x l2 IH]; intros l1 c tr; simpl.
  - reflexivity.
  - unfold bind.
    rewrite nth_error_app2 by lia. rewrite Nat.sub_diag. simpl.
    destruct (body x c tr) as [[[u|e] c1] tr1]; [|reflexivity].
    specialize (IH (l1 ++ [x]) c1 tr1).
    rewrite length_app_one, <- app_assoc in IH. exact IH.
Qed.

Lemma createAttachment_each_forEach (env : Env) (list : list File.t)
  (c : Comp) (tr : Trace) :
  createAttachment_each env list c tr = forEach list (createAttachment env) c tr.
Proof. apply (for_index_item (createAttachment env) [] list). Qed.

Lemma createAttachment_each_emits (env : Env) (list : list File.t) :
  emits one_at_a_time (createAttachment_each env list).
Proof.
  intros c tr. rewrite createAttachment_each_forEach.
  apply forEach_emits;
    [exact one_at_a_time_nil | exact one_at_a_time_app
     | apply createAttachment_emits].
Qed.

Lemma fileSelected_empty (env : Env) (c : Comp) (tr : Trace) :
  input_files (inputFile c) = None \/ input_files (inputFile c) = Some [] ->
  fileSelected env c tr = (Ok tt, set_progress true c, tr ++ [Tick]).
Proof.
  intros H. unfold fileSelected, bind, modify, emit, get, ret.
  cbn [inputFile set_progress]. destruct H as [-> | ->]; reflexivity.
Qed.

Lemma fileSelected_files (env : Env) (c : Comp) (tr : Trace)
  (file : File.t) (list : list File.t) :
  input_files (inputFile c) = Some (file :: list) ->
  fileSelected env c tr =
  let '(_, c', tr') :=
    createAttachment_each env (file :: list) (set_progress true c) (tr ++ [Tick]) in
  (Ok tt,
   set_progress false
     (set_inputFile {| input_files := Some []; input_value := "" |} c'),
   tr').
Proof.
  intros H. unfold fileSelected.
  unfold bind at 1. unfold modify at 1.
  unfold bind at 1. unfold emit at 1.
  unfold bind at 1. unfold get at 1.
  change (inputFile (set_progress true c)) with (inputFile c). rewrite H.
  cbn [length Nat.eqb].
  unfold bind at 1.
  destruct (createAttachment_each_emits env (file :: list)
              (set_progress true c) (tr ++ [Tick])) as (c1 & ev & E & _).
  rewrite E. reflexivity.
Qed.

Lemma fileSelected_emits (env : Env) : emits one_at_a_time (fileSelected env).
Proof.
  intros c tr.
  destruct (input_files (inputFile c)) as [[|file list]|] eqn:Hf.
  - rewrite fileSelected_empty by auto.
    do 2 eexists. split; [reflexivity|]. split; simpl; [lia|reflexivity].
  - rewrite (fileSelected_files env c tr file list Hf).
    destruct (createAttachment_each_emits env (file :: list)
                (set_progress true c) (tr ++ [Tick])) as (c1 & ev & E & Hev).
    rewrite E. exists (set_progress false
                         (set_inputFile {| input_files := Some []; input_value := "" |} c1)),
                      ([Tick] ++ ev).
    split; [now rewrite app_assoc|].
    apply one_at_a_time_app; [|exact Hev]. split; simpl; [lia|reflexivity].
  - rewrite fileSelected_empty by auto.
    do 2 eexists. split; [reflexivity|]. split; simpl; [lia|reflexivity].
Qed.

Lemma fileDrop_empty (env : Env) (e : DragEvent) (c : Comp) (tr : Trace) :
  option_map files (dataTransfer e) = None \/
  option_map files (dataTransfer e) = Some [] ->
  fileDrop env e c tr = (Ok tt, set_progress true c, tr).
Proof.
  intros H. unfold fileDrop, bind, modify, ret.
  destruct H as [-> | ->]; reflexivity.
Qed.

Lemma fileDrop_files (env : Env) (e : DragEvent) (c : Comp) (tr : Trace)
  (file : File.t) (list : list File.t) :
  option_map files (dataTransfer e) = Some (file :: list) ->
  fileDrop env e c tr =
  let '(_, c', tr') :=
    createAttachment_each env (file :: list) (set_progress true c) tr in
  (Ok tt, set_progress false c', tr').
Proof.
  intros H. unfold fileDrop.
  unfold bind at 1. unfold modify at 1. rewrite H.
  cbn [length Nat.eqb].
  unfold bind at 1.
  destruct (createAttachment_each_emits env (file :: list)
              (set_progress true c) tr) as (c1 & ev & E & _).
  rewrite E. reflexivity.
Qed.

Lemma fileDrop_emits (env : Env) (e : DragEvent) :
  emits one_at_a_time (fileDrop env e).
Proof.
  intros c tr.
  destruct (option_map files (dataTransfer e)) as [[|file list]|] eqn:Hf.
  - rewrite fileDrop_empty by auto.
    exists (set_progress true c), []. rewrite app_nil_r.
    split; [reflexivity | exact one_at_a_time_nil].
  - rewrite (fileDrop_files env e c tr file list Hf).
    destruct (createAttachment_each_emits env (file :: list)
                (set_progress true c) tr) as (c1 & ev & E & Hev).
    rewrite E. eauto.
  - rewrite fileDrop_empty by auto.
    exists (set_progress true c), []. rewrite app_nil_r.
    split; [reflexivity | exact one_at_a_time_nil].
Qed.

Lemma loadFiles_emits (env : Env) (evt : ClipboardEvent) :
  emits one_at_a_time (loadFiles env evt).
Proof.
  intros c tr. unfold loadFiles.
  unfold bind at 1. unfold modify at 1. unfold bind at 1.
  destruct (forEach_emits File.t one_at_a_time (createAttachment env)
              (match clipboardData evt with
               | Some d => files d
               | None => []
               end)
              one_at_a_time_nil one_at_a_time_app
              (createAttachment_emits env) (set_progress true c) tr)
    as (c1 & ev & E & Hev).
  rewrite E. unfold modify. eauto.
Qed.

(** C7, as the code has it.  The handlers that stage files ([fileSelected],
    [fileDrop], [loadFiles], each through [createAttachment]) await their
    calls one promise at a time: along what they add to the trace at most
    one call is pending, and none is at the end.  The commit of the staged
    set is different: [createAttachments] makes all its save and delete
    calls before any of them is awaited, and hands them back as one joint
    promise, so as many calls are pending at once as the commit makes. *)
Theorem C7_awaiting (env : Env) :
  emits one_at_a_time (fileSelected env) /\
  (forall e, emits one_at_a_time (fileDrop env e)) /\
  (forall evt, emits one_at_a_time (loadFiles env evt)) /\
  (forall file, emits one_at_a_time (createAttachment env file)) /\
  (forall c tr,
      exists calls,
        createAttachments c tr =
        (Ok calls, set_saved true c, tr ++ map Issue calls) /\
        max_in_flight (map Issue calls) = length calls).
Proof.
  split; [apply fileSelected_emits|].
  split; [apply fileDrop_emits|].
  split; [apply loadFiles_emits|].
  split; [apply createAttachment_emits|].
  intros c tr. exists (createAttachments_calls c). split.
  - apply createAttachments_run.
  - apply (max_pending_issues 0).
Qed.

(** C7 as stated fails on the commit: with two staged attachments, a
    submission has both [addCollection] calls pending at once. *)
Lemma C7_awaiting_counterexample :
  snd (onMessage env_fulfil "hello" (two_staged false) []) =
  [Issue (AddCollection "attachment:class:Attachment" "sp" "obj" "cls"
            "attachments" attachment_png "id-5");
   Issue (AddCollection "attachment:class:Attachment" "sp" "obj" "cls"
            "attachments" attachment_txt "id-9");
   Settled (AddCollection "attachment:class:Attachment" "sp" "obj" "cls"
              "attachments" attachment_png "id-5") None;
   Settled (AddCollection "attachment:class:Attachment" "sp" "obj" "cls"
              "attachments" attachment_txt "id-9") None;
   Dispatch "message" {| message := "hello"; detail_attachments := 2 |}] /\
  max_in_flight (snd (onMessage env_fulfil "hello" (two_staged false) [])) = 2.
Proof. split; vm_compute; reflexivity. Qed.

(** ** Empty selections *)

(** C10.  [fileSelected] with no file list or an empty one, and [fileDrop]
    with no [dataTransfer] or an empty file list, return at once: the
    progress flag they set on entry stays set, and the attachments map is
    untouched. *)
Theorem C10_empty_selection (env : Env) (c : Comp) (tr : Trace) (e : DragEvent) :
  ((input_files (inputFile c) = None \/ input_files (inputFile c) = Some []) ->
   exists c',
     fileSelected env c tr = (Ok tt, c', tr ++ [Tick]) /\
     progress c' = true /\
     attachments c' = attachments c) /\
  ((dataTransfer e = None \/ option_map files (dataTransfer e) = Some []) ->
   exists c',
     fileDrop env e c tr = (Ok tt, c', tr) /\
     progress c' = true /\
     attachments c' = attachments c).
Proof.
  split; intros H.
  - exists (set_progress true c). split; [now apply fileSelected_empty|].
    split; reflexivity.
  - exists (set_progress true c). split; [|split; reflexivity].
    apply fileDrop_empty. destruct H as [-> | ->]; auto.
Qed.

(** ** Paste gating *)

Lemma element_eqb_eq (a b : HTMLElement) : element_eqb a b = true <-> a = b.
Proof.
  revert b. induction a as [n|n p IH]; intros [n'|n' p']; simpl;
    try (split; [discriminate | intros H; discriminate H]).
  - rewrite Nat.eqb_eq. split; [intros ->; reflexivity | intros H; now inversion H].
  - rewrite andb_true_iff, Nat.eqb_eq, IH.
    split; [intros [-> ->]; reflexivity | intros H; now inversion H].
Qed.

Lemma element_eqb_refl (a : HTMLElement) : element_eqb a a = true.
Proof. now apply element_eqb_eq. Qed.

(** One round of the loop, as the source writes it. *)
Lemma while_target_round (rc : option HTMLElement) (t : HTMLElement)
  (allowed : bool) :
  while_target rc t allowed =
  let target := parentElement t in
  let allowed := if is_refContainer target rc then true else allowed in
  match target with
  | Some p => while_target rc p allowed
  | None => allowed
  end.
Proof. destruct t; reflexivity. Qed.

Lemma while_target_unbound (t : HTMLElement) (allowed : bool) :
  while_target None t allowed = allowed.
Proof.
  revert allowed. induction t as [n|n p IH]; intros allowed; simpl.
  - reflexivity.
  - apply IH.
Qed.

Lemma while_target_allowed (rc : option HTMLElement) (t : HTMLElement) :
  while_target rc t true = true.
Proof.
  induction t as [n|n p IH]; simpl.
  - reflexivity.
  - destruct rc as [r|]; [destruct (element_eqb p r)|]; exact IH.
Qed.

(** The loop answers whether the container is a proper ancestor of the
    target. *)
Lemma while_target_strict_descendant (r t : HTMLElement) :
  while_target (Some r) t false = true <-> strict_descendant r t.
Proof.
  induction t as [n|n p IH]; simpl.
  - split; [discriminate | intros H; inversion H].
  - destruct (element_eqb p r) eqn:E.
    + apply element_eqb_eq in E. subst p.
      rewrite while_target_allowed. split; [intros _; constructor | reflexivity].
    + rewrite IH. split.
      * intros H. now constructor.
      * intros H. inversion H; subst; [|assumption].
        rewrite element_eqb_refl in E. discriminate.
Qed.

Lemma hasFiles_spec (evt : ClipboardEvent) :
  hasFiles evt = true <->
  exists d i, clipboardData evt = Some d /\ In i (items d) /\ kind i = "file".
Proof.
  unfold hasFiles. rewrite existsb_exists. split.
  - intros [i [Hi Hk]]. apply String.eqb_eq in Hk.
    destruct (clipboardData evt) as [d|]; [|contradiction].
    exists d, i. auto.
  - intros (d & i & -> & Hi & Hk). exists i. split; [assumption|].
    now apply String.eqb_eq.
Qed.

Lemma uploads_app (t1 t2 : Trace) : uploads (t1 ++ t2) = uploads t1 ++ uploads t2.
Proof. apply flat_map_app. Qed.

Lemma createAttachment_uploads (env : Env) (file : File.t) (c : Comp) (tr : Trace) :
  exists c' ev,
    createAttachment env file c tr = (Ok tt, c', tr ++ ev) /\
    uploads ev = [file].
Proof.
  rewrite createAttachment_run.
  destruct (uploadFile_result env (S (length tr)) file) as [err|uuid].
  - do 2 eexists. split; reflexivity.
  - destruct (getFileMetadata_result env (3 + length tr) file uuid)
      as [err|metadata].
    + do 2 eexists. split; reflexivity.
    + cbv zeta. destruct (shouldSaveDraft c); do 2 eexists; split; reflexivity.
Qed.

Lemma forEach_createAttachment_uploads (env : Env) (l : list File.t) (c : Comp)
  (tr : Trace) :
  exists c' ev,
    forEach l (createAttachment env) c tr = (Ok tt, c', tr ++ ev) /\
    uploads ev = l.
Proof.
  revert c tr. induction l as [|file l IH]; intros c tr; simpl.
  - exists c, []. split; [now rewrite app_nil_r | reflexivity].
  - destruct (createAttachment_uploads env file c tr) as (c1 & ev1 & E1 & U1).
    destruct (IH c1 (tr ++ ev1)) as (c2 & ev2 & E2 & U2).
    exists c2, (ev1 ++ ev2). unfold bind. rewrite E1, E2.
    split; [now rewrite app_assoc|]. now rewrite uploads_app, U1, U2.
Qed.

(** [createAttachment] is its call of [uploadFile] followed by what it
    does once that call has settled. *)
Lemma createAttachment_split (env : Env) (file : File.t) (c : Comp) (tr : Trace) :
  createAttachment env file c tr =
  createAttachment_resumed env file c (tr ++ [Issue (UploadFile file)]).
Proof.
  unfold createAttachment, createAttachment_resumed, await_uploadFile,
    try_catch, bind, emit.
  reflexivity.
Qed.

(** [loadFiles] is what it does up to its first [await] followed by the
    rest. *)
Lemma loadFiles_split (env : Env) (evt : ClipboardEvent) (c : Comp) (tr : Trace) :
  loadFiles env evt c tr =
  (loadFiles_started evt ;; loadFiles_resumed env evt)%js c tr.
Proof.
  unfold loadFiles, loadFiles_started, loadFiles_resumed, clipboard_files.
  destruct (match clipboardData evt with
            | Some d => files d
            | None => []
            end) as [|file rest].
  - reflexivity.
  - cbn [forEach]. unfold bind, modify, emit.
    rewrite createAttachment_split.
    destruct (createAttachment_resumed env file (set_progress true c)
                (tr ++ [Issue (UploadFile file)])) as [[r c1] t1].
    destruct r as [[]|err]; [|reflexivity].
    destruct (forEach rest (createAttachment env) c1 t1) as [[r c2] t2].
    destruct r; reflexivity.
Qed.

Lemma pasteAction_run (evt : ClipboardEvent) (c : Comp) (tr : Trace) :
  pasteAction evt c tr =
  if match target evt with
     | Some t => while_target (refContainer c) t false
     | None => false
     end && hasFiles evt
  then match clipboard_files evt with
       | [] => (Ok true, set_progress false (set_progress true c), tr)
       | file :: _ =>
           (Ok true, set_progress true c, tr ++ [Issue (UploadFile file)])
       end
  else (Ok false, c, tr).
Proof.
  unfold pasteAction. unfold bind at 1. unfold get at 1.
  destruct (match target evt with
            | Some t => while_target (refContainer c) t false
            | None => false
            end); [|reflexivity].
  destruct (hasFiles evt); [|reflexivity].
  cbn [negb andb].
  unfold loadFiles_started.
  destruct (clipboard_files evt) as [|file rest]; reflexivity.
Qed.

(** C9.  [pasteAction] returns [true] exactly when the target of the paste
    is a proper descendant of the component's container, found by following
    [parentElement] links, and the clipboard holds an item of kind
    ['file'].  Then, and only then, it starts [loadFiles] on the event and
    returns without waiting for it: on return the progress flag is set and
    [uploadFile] has been called on the first file of the clipboard (without
    files, [loadFiles] has already ended, the flag cleared).  What it
    started then goes on as [loadFiles] does: [createAttachment] is run on
    every file of the clipboard, in order, each uploaded once, and the
    progress flag is cleared at the end.  Otherwise [pasteAction] returns
    [false] and touches neither the component nor its collaborators. *)
Theorem C9_paste_gating (env : Env) (evt : ClipboardEvent) (c : Comp) (tr : Trace) :
  exists b c' tr',
    pasteAction evt c tr = (Ok b, c', tr') /\
    (b = true <->
     (exists t r,
         target evt = Some t /\ refContainer c = Some r /\
         strict_descendant r t) /\
     (exists d i,
         clipboardData evt = Some d /\ In i (items d) /\ kind i = "file")) /\
    (b = true ->
     match clipboard_files evt with
     | [] => c' = set_progress false (set_progress true c) /\ tr' = tr
     | file :: _ =>
         c' = set_progress true c /\ tr' = tr ++ [Issue (UploadFile file)]
     end /\
     exists c1 ev,
       forEach (clipboard_files evt) (createAttachment env)
         (set_progress true c) tr = (Ok tt, c1, tr ++ ev) /\
       uploads ev = clipboard_files evt /\
       loadFiles_resumed env evt c' tr' = (Ok tt, set_progress false c1, tr ++ ev) /\
       loadFiles env evt c tr = (Ok tt, set_progress false c1, tr ++ ev)) /\
    (b = false -> c' = c /\ tr' = tr /\ attachments c' = attachments c).
Proof.
  rewrite pasteAction_run.
  assert (Hallowed :
            match target evt with
            | Some t => while_target (refContainer c) t false
            | None => false
            end = true <->
            exists t r, target evt = Some t /\ refContainer c = Some r /\
                        strict_descendant r t).
  { destruct (target evt) as [t|].
    - destruct (refContainer c) as [r|].
      + rewrite while_target_strict_descendant. split.
        * intros H. exists t, r. auto.
        * intros (t' & r' & Ht & Hr & H). inversion Ht; inversion Hr; subst.
          exact H.
      + rewrite while_target_unbound. split; [discriminate|].
        intros (t' & r' & _ & Hr & _). discriminate.
    - split; [discriminate|]. intros (t' & r' & Ht & _). discriminate. }
  assert (Hstart :
            exists c1 ev,
              forEach (clipboard_files evt) (createAttachment env)
                (set_progress true c) tr = (Ok tt, c1, tr ++ ev) /\
              uploads ev = clipboard_files evt /\
              loadFiles env evt c tr = (Ok tt, set_progress false c1, tr ++ ev)).
  { destruct (forEach_createAttachment_uploads env (clipboard_files evt)
                (set_progress true c) tr) as (c1 & ev & E & U).
    exists c1, ev. split; [exact E|]. split; [exact U|].
    unfold loadFiles. fold (clipboard_files evt).
    unfold bind at 1. unfold modify at 1. unfold bind at 1.
    rewrite E. reflexivity. }
  destruct (match target evt with
            | Some t => while_target (refContainer c) t false
            | None => false
            end) eqn:Ha; cbn [andb].
  - destruct (hasFiles evt) eqn:Hf.
    + destruct Hstart as (c1 & ev & E & U & L).
      pose proof (loadFiles_split env evt c tr) as S.
      rewrite L in S. unfold loadFiles_started in S.
      destruct (clipboard_files evt) as [|file rest] eqn:Hfiles.
      * exists true, (set_progress false (set_progress true c)), tr.
        split; [reflexivity|].
        split; [split; [intros _|reflexivity];
                split; [now apply Hallowed | now apply hasFiles_spec]|].
        split; [|discriminate].
        intros _. split; [split; reflexivity|].
        exists c1, ev. split; [exact E|]. split; [exact U|].
        split; [|exact L]. rewrite S. reflexivity.
      * exists true, (set_progress true c), (tr ++ [Issue (UploadFile file)]).
        split; [reflexivity|].
        split; [split; [intros _|reflexivity];
                split; [now apply Hallowed | now apply hasFiles_spec]|].
        split; [|discriminate].
        intros _. split; [split; reflexivity|].
        exists c1, ev. split; [exact E|]. split; [exact U|].
        split; [|exact L]. rewrite S. reflexivity.
    + exists false, c, tr. split; [reflexivity|].
      split; [|split; [discriminate | auto]].
      split; [discriminate|]. intros [_ H]. apply hasFiles_spec in H. congruence.
  - exists false, c, tr. split; [reflexivity|].
    split; [|split; [discriminate | auto]].
    split; [discriminate|]. intros [H _]. apply Hallowed in H. discriminate.
Qed.

(** ** What every operation keeps *)

Section Preservation.
Variable P : Comp -> Prop.

Lemma preserves_ret (A : Type) (a : A) : preserves P (ret a).
Proof. intros c tr H. exact H. Qed.

Lemma preserves_throw (A : Type) (e : Err) : preserves P (@throw A e).
Proof. intros c tr H. exact H. Qed.

Lemma preserves_get : preserves P get.
Proof. intros c tr H. exact H. Qed.

Lemma preserves_now : preserves P now.
Proof. intros c tr H. exact H. Qed.

Lemma preserves_emit (e : Event) : preserves P (emit e).
Proof. intros c tr H. exact H. Qed.

Lemma preserves_modify (f : Comp -> Comp) :
  (forall c, P c -> P (f c)) -> preserves P (modify f).
Proof. intros Hf c tr H. apply Hf, H. Qed.

Lemma preserves_bind (A B : Type) (m : M A) (f : A -> M B) :
  preserves P m -> (forall a, preserves P (f a)) -> preserves P (bind m f).
Proof.
  intros Hm Hf c tr H. unfold bind. specialize (Hm c tr H).
  destruct (m c tr) as [[[a|e] c1] tr1]; simpl in *.
  - now apply Hf.
  - exact Hm.
Qed.

Lemma preserves_try_catch (A : Type) (m : M A) (h : Err -> M A) :
  preserves P m -> (forall e, preserves P (h e)) -> preserves P (try_catch m h).
Proof.
  intros Hm Hh c tr H. unfold try_catch. specialize (Hm c tr H).
  destruct (m c tr) as [[[a|e] c1] tr1]; simpl in *.
  - exact Hm.
  - now apply Hh.
Qed.

Lemma preserves_void (A : Type) (m : M A) : preserves P m -> preserves P (void m).
Proof.
  intros Hm. unfold void. apply preserves_try_catch.
  - apply preserves_bind; [exact Hm | intros; apply preserves_ret].
  - intros; apply preserves_ret.
Qed.

Lemma preserves_forEach (A : Type) (l : list A) (body : A -> M unit) :
  (forall x, preserves P (body x)) -> preserves P (forEach l body).
Proof.
  intros Hbody. induction l as [|x l IH]; simpl.
  - apply preserves_ret.
  - apply preserves_bind; [apply Hbody | intros _; exact IH].
Qed.

Lemma preserves_collect (A : Type) (l : list A) (body : A -> M Promise) :
  (forall x, preserves P (body x)) -> preserves P (collect l body).
Proof.
  intros Hbody. induction l as [|x l IH]; simpl.
  - apply preserves_ret.
  - apply preserves_bind; [apply Hbody | intros p].
    apply preserves_bind; [exact IH | intros ps; apply preserves_ret].
Qed.

Hypothesis HP : stable P.

Create HintDb preserves.

Ltac preserves_step :=
  first
    [ apply preserves_ret | apply preserves_throw | apply preserves_get
    | apply preserves_now | apply preserves_emit
    | apply preserves_bind; [|intros ?]
    | apply preserves_try_catch; [|intros ?]
    | apply preserves_void
    | apply preserves_forEach; intros ?
    | apply preserves_collect; intros ?
    | apply preserves_modify; intros ? ?; destruct HP; solve [auto]
    | solve [auto with preserves]
    | match goal with
      | |- preserves _ (match ?x with _ => _ end) => destruct x
      end ].

Ltac preserves_auto := repeat preserves_step.

Lemma preserves_await (env : Env) (p : Promise) : preserves P (await env p).
Proof. unfold await. preserves_auto. Qed.

Lemma preserves_issue (call : Call) : preserves P (issue call).
Proof. unfold issue. preserves_auto. Qed.

Hint Resolve preserves_await preserves_issue : preserves.

Lemma preserves_saveDraft : preserves P saveDraft.
Proof. unfold saveDraft. preserves_auto. Qed.

Hint Resolve preserves_saveDraft : preserves.

Lemma preserves_createAttachment (env : Env) (file : File.t) :
  preserves P (createAttachment env file).
Proof.
  unfold createAttachment, await_uploadFile, await_getFileMetadata, generateId.
  preserves_auto.
Qed.

Hint Resolve preserves_createAttachment : preserves.

Lemma preserves_createAttachments : preserves P createAttachments.
Proof.
  unfold createAttachments, saveAttachment, deleteAttachment. preserves_auto.
Qed.

Hint Resolve preserves_createAttachments : preserves.

Lemma preserves_loadFiles (env : Env) (evt : ClipboardEvent) :
  preserves P (loadFiles env evt).
Proof. unfold loadFiles. preserves_auto. Qed.

Hint Resolve preserves_loadFiles : preserves.

(** No operation of the component breaks a stable property. *)
Lemma preserves_perform (env : Env) (op : Op) : preserves P (perform env op).
Proof.
  destruct op; simpl;
    unfold reactive_updateAttachments, updateAttachments, query_callback,
      reactive_existingAttachmentsQuery, existingAttachments_callback,
      fileSelected, fileDrop, createAttachment_each, for_index,
      removeAttachment, removeDraft, onMessage, onUpdate, pasteAction,
      loadFiles_started, loadFiles_resumed, createAttachment_resumed,
      await_getFileMetadata, generateId;
    preserves_auto.
Qed.

Lemma preserves_execute (env : Env) (ops : list Op) (c : Comp) (tr : Trace) :
  P c -> P (fst (execute env ops c tr)).
Proof.
  revert c tr. induction ops as [|op ops IH]; intros c tr H; simpl.
  - exact H.
  - pose proof (preserves_perform env op c tr H) as H1.
    destruct (perform env op c tr) as [[r c1] tr1]. simpl in H1.
    now apply IH.
Qed.

End Preservation.

(** ** Teardown after a commit *)

Lemma stable_saved_true : stable (fun c => saved c = true).
Proof. split; intros; simpl; auto. Qed.

Lemma stable_shouldSaveDraft (b : bool) : stable (fun c => shouldSaveDraft c = b).
Proof. split; intros; simpl; auto. Qed.

Lemma execute_app (env : Env) (ops1 ops2 : list Op) (c : Comp) (tr : Trace) :
  execute env (ops1 ++ ops2) c tr =
  execute env ops2 (fst (execute env ops1 c tr)) (snd (execute env ops1 c tr)).
Proof.
  revert c tr. induction ops1 as [|op ops1 IH]; intros c tr; simpl.
  - reflexivity.
  - destruct (perform env op c tr) as [[r c1] tr1]. apply IH.
Qed.

(** An operation that runs [createAttachments] leaves [saved] set. *)
Lemma perform_commits (env : Env) (op : Op) (c : Comp) (tr : Trace) :
  invokes_createAttachments (shouldSaveDraft c) op = true ->
  saved (snd (fst (perform env op c tr))) = true.
Proof.
  destruct op; simpl; try discriminate; intros H.
  - rewrite removeAttachment_run, H. cbv zeta.
    destruct (rejection env _ _) as [[call err]|]; reflexivity.
  - unfold void, try_catch, bind. rewrite createAttachments_run. reflexivity.
  - rewrite onMessage_run. cbv zeta.
    destruct (rejection env _ _) as [[call err]|]; reflexivity.
Qed.

(** C8.  Once [createAttachments] has run, in any operation of any
    execution of the component, [saved] is set and stays set, and a
    teardown then does nothing: [onDestroy] makes no store call and deletes
    no file, and leaves the component, its attachments map included, as it
    is. *)
Theorem C8_teardown_after_commit (env : Env) (before after : list Op) (op : Op)
  (c0 : Comp) :
  invokes_createAttachments (shouldSaveDraft c0) op = true ->
  exists c tr,
    execute env (before ++ op :: after) c0 [] = (c, tr) /\
    saved c = true /\
    onDestroy c tr = (Ok tt, c, tr).
Proof.
  intros Hop.
  exists (fst (execute env (before ++ op :: after) c0 [])),
         (snd (execute env (before ++ op :: after) c0 [])).
  split; [now destruct (execute env (before ++ op :: after) c0 [])|].
  assert (Hsaved : saved (fst (execute env (before ++ op :: after) c0 [])) = true).
  { rewrite execute_app. simpl.
    pose proof (preserves_execute (fun c => shouldSaveDraft c = shouldSaveDraft c0)
                  (stable_shouldSaveDraft (shouldSaveDraft c0))
                  env before c0 [] eq_refl) as Hd.
    set (c1 := fst (execute env before c0 [])) in *.
    set (tr1 := snd (execute env before c0 [])) in *.
    rewrite <- Hd in Hop.
    pose proof (perform_commits env op c1 tr1 Hop) as Hs.
    destruct (perform env op c1 tr1) as [[r c2] tr2]. simpl in Hs.
    apply (preserves_execute (fun c => saved c = true) stable_saved_true).
    exact Hs. }
  split; [exact Hsaved|]. now apply onDestroy_saved.
Qed.

Lemma C8_teardown_after_commit_witness :
  exists c tr,
    execute env_fulfil
      ([FileSelected] ++ Message "hello" :: [RemoveAttachment attachment_png])
      (created false) [] = (c, tr) /\
    saved c = true /\
    onDestroy c tr = (Ok tt, c, tr).
Proof.
  exact (C8_teardown_after_commit env_fulfil [FileSelected]
           [RemoveAttachment attachment_png] (Message "hello")
           (created false) eq_refl).
Defined.

(** ** Draft staging, stated *)

Lemma stable_draftKey (key : string) : stable (fun c => draftKey c = key).
Proof. split; intros; simpl; auto. Qed.

(** An assignment of the prop [objectId] changes [objectId]; the draft key,
    a constant of the script, stays what it was. *)
Lemma assign_objectId_keeps (env : Env) (v : Ref) (c : Comp) (tr : Trace) :
  objectId (snd (fst (assign_objectId env v c tr))) = v /\
  draftKey (snd (fst (assign_objectId env v c tr))) = draftKey c.
Proof.
  assert (HP : stable (fun c' => objectId c' = v /\ draftKey c' = draftKey c))
    by (split; intros; simpl; auto).
  change (assign_objectId env v c tr) with
    ((reactive_updateAttachments env ;; reactive_existingAttachmentsQuery)%js
       (set_objectId v c) tr).
  apply (preserves_bind (fun c' => objectId c' = v /\ draftKey c' = draftKey c)
           unit unit (reactive_updateAttachments env)
           (fun _ => reactive_existingAttachmentsQuery)
           (preserves_perform _ HP env ReactiveUpdateAttachments)
           (fun _ => preserves_perform _ HP env ReactiveExistingAttachmentsQuery)
           (set_objectId v c) tr).
  split; reflexivity.
Qed.

(** C6, as the code has it.  The draft key is a constant of the component:
    it is [`${objectId}_attachments`] for the [objectId] the component was
    created with, and neither an operation of the component nor a later
    assignment of the prop changes it.  With [shouldSaveDraft] set: a
    successful [createAttachment] ends by saving the whole attachments
    map, as it then is, under that key; so does a [removeAttachment] whose
    commit is fulfilled (the removal awaits [createAttachments] before it
    saves the draft); and [updateAttachments], finding a draft under that
    key, replaces the attachments map by exactly the draft's entries, makes
    [newAttachments] the draft's ids and empties [originalAttachments] and
    [removedAttachments].  (The commit of a removal is answered once its
    calls are made, the drafts store is read at the start; a draft is an
    object, so its keys are distinct.) *)
Theorem C6_draft_staging (env : Env) (c : Comp) (tr : Trace) :
  shouldSaveDraft c = true ->
  (forall file uuid metadata,
      uploadFile_result env (S (length tr)) file = inr uuid ->
      getFileMetadata_result env (3 + length tr) file uuid = inr metadata ->
      exists c' pre,
        createAttachment env file c tr =
        (Ok tt, c',
         pre ++ [DraftSave (draftKey c)
                   (Object_fromEntries (attachments c'))])) /\
  (forall a,
      fulfils env (length tr + length (createAttachments_calls (removed a c)))
        (createAttachments_calls (removed a c)) ->
      exists c' pre,
        removeAttachment env a c tr =
        (Ok tt, c',
         pre ++ [DraftSave (draftKey c)
                   (Object_fromEntries (attachments c'))]) /\
        attachments c' = IdMap.delete (Attachment._id a) (attachments c)) /\
  (forall oid d,
      draftsStore env (length tr) (draftKey c) = Some d ->
      IdMap.wf d ->
      exists c',
        updateAttachments env oid c tr = (Ok tt, c', tr) /\
        attachments c' = Object_entries d /\
        newAttachments c' = IdMap.keys d /\
        originalAttachments c' = [] /\
        removedAttachments c' = []) /\
  (forall objectId space _class shouldSaveDraft attachments,
      draftKey (create objectId space _class shouldSaveDraft attachments) =
      (objectId ++ "_attachments")%string) /\
  (forall ops tr0, draftKey (fst (execute env ops c tr0)) = draftKey c) /\
  (forall v tr0,
      objectId (snd (fst (assign_objectId env v c tr0))) = v /\
      draftKey (snd (fst (assign_objectId env v c tr0))) = draftKey c).
Proof.
  intros Hd. split; [|split; [|split; [|split; [|split]]]].
  - intros file uuid metadata Hup Hmeta.
    pose proof (createAttachment_run env file c tr) as Hrun.
    rewrite Hup, Hmeta, Hd in Hrun. cbv zeta in Hrun.
    match type of Hrun with _ = (_, ?c1, _) => exists c1 end.
    eexists. rewrite Hrun. rewrite app_assoc. reflexivity.
  - intros a Hful.
    pose proof (removeAttachment_run env a c tr) as Hrun.
    rewrite Hd in Hrun. cbv zeta in Hrun.
    rewrite length_app, length_map in Hrun.
    rewrite (rejection_None env _ _ Hful) in Hrun.
    match type of Hrun with _ = (_, ?c1, _) => exists c1 end.
    exists ((tr ++ map Issue (createAttachments_calls (removed a c)))
              ++ map (fun call => Settled call None)
                   (createAttachments_calls (removed a c))).
    split.
    + rewrite Hrun. rewrite <- !app_assoc. reflexivity.
    + reflexivity.
  - intros oid d Hdraft Hwf.
    rewrite (updateAttachments_draft env oid c tr d Hd Hdraft).
    eexists. split; [reflexivity|].
    cbn [attachments newAttachments originalAttachments removedAttachments
         set_removedAttachments set_originalAttachments set_newAttachments
         set_attachments set_draftAttachments].
    unfold Object_entries. split; [|split; [|split; reflexivity]].
    + apply (fold_set_wf _ d []). exact Hwf.
    + transitivity (fold_left (fun s k => ref_add k s) (IdMap.keys d) []).
      * unfold IdMap.keys. clear. generalize (@nil Ref).
        induction d as [|e d IH]; intros acc; simpl; [reflexivity|apply IH].
      * apply (fold_ref_add_wf (IdMap.keys d) []). exact Hwf.
  - reflexivity.
  - intros ops tr0.
    apply (preserves_execute (fun c' => draftKey c' = draftKey c)
             (stable_draftKey (draftKey c)) env ops c tr0 eq_refl).
  - intros v tr0. apply assign_objectId_keeps.
Qed.

Lemma C6_draft_staging_witness :
  (exists c' pre,
      createAttachment env_draft file_png (created true) [] =
      (Ok tt, c',
       pre ++ [DraftSave "obj_attachments" (Object_fromEntries (attachments c'))])) /\
  (exists c' pre,
      removeAttachment env_draft attachment_png (two_staged true) [] =
      (Ok tt, c',
       pre ++ [DraftSave "obj_attachments" (Object_fromEntries (attachments c'))]) /\
      IdMap.size (attachments c') = 1) /\
  (exists c',
      updateAttachments env_draft "obj" (created true) [] = (Ok tt, c', []) /\
      attachments c' = [("id-5", attachment_png)] /\
      newAttachments c' = ["id-5"]).
Proof.
  split; [|split].
  - destruct (C6_draft_staging env_draft (created true) [] eq_refl) as [H _].
    apply (H file_png "blob-a.png" None); reflexivity.
  - destruct (C6_draft_staging env_draft (two_staged true) [] eq_refl)
      as (_ & H & _).
    destruct (H attachment_png) as (c' & pre & Hrun & Hatt).
    + intros call _. reflexivity.
    + exists c', pre. split; [exact Hrun|]. rewrite Hatt. reflexivity.
  - destruct (C6_draft_staging env_draft (created true) [] eq_refl)
      as (_ & _ & H & _).
    destruct (H "obj" [("id-5", attachment_png)] eq_refl) as (c' & Hrun & Ha & Hn & _).
    + repeat constructor. simpl. tauto.
    + exists c'. auto.
Defined.

(** C6 as stated fails in two ways.  A removal whose commit is rejected:
    the two staged attachments are in the saved draft, [removeAttachment]
    deletes one from the map and throws on the rejected commit before it
    reaches [saveDraft]; the draft still holds both.  And the key: once
    the parent has assigned another [objectId], a staged file is still
    saved under the key of the [objectId] the component was created
    with. *)
Lemma C6_draft_staging_counterexample :
  (shouldSaveDraft (two_staged true) = true /\
   let '(r, c', tr) :=
     removeAttachment env_client_rejects attachment_png (two_staged true) [] in
   r = Thrown "offline" /\
   existsb is_draft_save tr = false /\
   IdMap.keys (attachments c') = ["id-:"] /\
   option_map IdMap.keys (draftAttachments c') = Some ["id-5"; "id-:"]) /\
  (let c := snd (fst (assign_objectId env_fulfil "other" (created true) [])) in
   let '(r, c', tr) := createAttachment env_fulfil file_png c [] in
   shouldSaveDraft c = true /\
   objectId c = "other" /\
   r = Ok tt /\
   last tr Tick =
     DraftSave "obj_attachments" (Object_fromEntries (attachments c'))).
Proof. vm_compute. repeat split. Qed.

(** ** The scenario, run *)

Example staging_two_files :
  IdMap.keys (attachments (two_staged false)) = ["id-5"; "id-9"] /\
  newAttachments (two_staged false) = ["id-5"; "id-9"] /\
  progress (two_staged false) = false.
Proof. vm_compute. auto. Qed.

Example paste_in_editor :
  pasteAction (paste_image editor) mounted [] =
  (Ok true, set_progress true mounted, [Issue (UploadFile file_png)]) /\
  IdMap.size
    (attachments
       (fst (execute env_fulfil [Paste (paste_image editor)] mounted [])))
  = 1.
Proof. vm_compute. auto. Qed.

Example paste_on_container :
  pasteAction (paste_image container) mounted [] = (Ok false, mounted, []).
Proof. reflexivity. Qed.

Example paste_before_binding :
  pasteAction (paste_image editor) (created false) [] =
  (Ok false, created false, []).
Proof. reflexivity. Qed.

Example drop_without_files :
  fileDrop env_fulfil {| dataTransfer := None |} (created false) [] =
  (Ok tt, set_progress true (created false), []).
Proof. reflexivity. Qed.

Example saveAttachment_persisted :
  saveAttachment attachment_png
    (set_existingAttachments ["id-5"] (two_staged false)) [] =
  (Ok [], set_existingAttachments ["id-5"] (two_staged false), []).
Proof. reflexivity. Qed.

(** * Further properties of the script *)

(** ** What an operation may add to the trace *)

Section Only.
Variable P : Comp -> Prop.
Variable Q : Event -> Prop.

Lemma only_ret (A : Type) (a : A) : emits_only P Q (ret a).
Proof.
  intros c tr H. split; [exact H|]. exists []. simpl.
  split; [now rewrite app_nil_r | constructor].
Qed.

Lemma only_throw (A : Type) (e : Err) : emits_only P Q (@throw A e).
Proof.
  intros c tr H. split; [exact H|]. exists []. simpl.
  split; [now rewrite app_nil_r | constructor].
Qed.

Lemma only_now : emits_only P Q now.
Proof.
  intros c tr H. split; [exact H|]. exists []. simpl.
  split; [now rewrite app_nil_r | constructor].
Qed.

Lemma only_emit (e : Event) : Q e -> emits_only P Q (emit e).
Proof.
  intros He c tr H. split; [exact H|]. exists [e]. simpl.
  split; [reflexivity | now constructor].
Qed.

Lemma only_modify (f : Comp -> Comp) :
  (forall c, P c -> P (f c)) -> emits_only P Q (modify f).
Proof.
  intros Hf c tr H. split; [now apply Hf|]. exists []. simpl.
  split; [now rewrite app_nil_r | constructor].
Qed.

Lemma only_bind (A B : Type) (m : M A) (f : A -> M B) :
  emits_only P Q m -> (forall a, emits_only P Q (f a)) ->
  emits_only P Q (bind m f).
Proof.
  intros Hm Hf c tr H. unfold bind.
  destruct (Hm c tr H) as (H1 & ev1 & E1 & Q1).
  destruct (m c tr) as [[[a|e] c1] tr1]; simpl in *.
  - destruct (Hf a c1 tr1 H1) as (H2 & ev2 & E2 & Q2).
    split; [exact H2|]. exists (ev1 ++ ev2).
    split; [now rewrite E2, E1, app_assoc | now apply Forall_app].
  - split; [exact H1|]. exists ev1. auto.
Qed.

(** After reading the variables, the rest may rely on what [P] says of
    them. *)
Lemma only_bind_get (B : Type) (f : Comp -> M B) :
  (forall c0, P c0 -> emits_only P Q (f c0)) -> emits_only P Q (bind get f).
Proof. intros Hf c tr H. unfold bind, get. exact (Hf c H c tr H). Qed.

Lemma only_try_catch (A : Type) (m : M A) (h : Err -> M A) :
  emits_only P Q m -> (forall e, emits_only P Q (h e)) ->
  emits_only P Q (try_catch m h).
Proof.
  intros Hm Hh c tr H. unfold try_catch.
  destruct (Hm c tr H) as (H1 & ev1 & E1 & Q1).
  destruct (m c tr) as [[[a|e] c1] tr1]; simpl in *.
  - split; [exact H1|]. exists ev1. auto.
  - destruct (Hh e c1 tr1 H1) as (H2 & ev2 & E2 & Q2).
    split; [exact H2|]. exists (ev1 ++ ev2).
    split; [now rewrite E2, E1, app_assoc | now apply Forall_app].
Qed.

Lemma only_void (A : Type) (m : M A) :
  emits_only P Q m -> emits_only P Q (void m).
Proof.
  intros Hm. unfold void. apply only_try_catch.
  - apply only_bind; [exact Hm | intros; apply only_ret].
  - intros; apply only_ret.
Qed.

Lemma only_forEach (A : Type) (l : list A) (body : A -> M unit) :
  (forall x, emits_only P Q (body x)) -> emits_only P Q (forEach l body).
Proof.
  intros Hbody. induction l as [|x l IH]; simpl.
  - apply only_ret.
  - apply only_bind; [apply Hbody | intros _; exact IH].
Qed.

Lemma only_collect (A : Type) (l : list A) (body : A -> M Promise) :
  (forall x, emits_only P Q (body x)) -> emits_only P Q (collect l body).
Proof.
  intros Hbody. induction l as [|x l IH]; simpl.
  - apply only_ret.
  - apply only_bind; [apply Hbody | intros p].
    apply only_bind; [exact IH | intros ps; apply only_ret].
Qed.

End Only.

(** [side] closes the conditions on single events and assignments, and the
    branches the component's variables exclude. *)
Ltac only_step side :=
  lazymatch goal with
  | |- emits_only _ _ (ret _) => apply only_ret
  | |- emits_only _ _ (throw _) => apply only_throw
  | |- emits_only _ _ now => apply only_now
  | |- emits_only _ _ (bind get _) => apply only_bind_get; intros ? ?
  | |- emits_only _ _ (bind _ _) => apply only_bind; [|intros ?]
  | |- emits_only _ _ (try_catch _ _) => apply only_try_catch; [|intros ?]
  | |- emits_only _ _ (void _) => apply only_void
  | |- emits_only _ _ (forEach _ _) => apply only_forEach; intros ?
  | |- emits_only _ _ (collect _ _) => apply only_collect; intros ?
  | |- emits_only _ _ (emit _) => apply only_emit; solve [side]
  | |- emits_only _ _ (modify _) => apply only_modify; intros ? ?; solve [side]
  | |- emits_only _ _ (let _ := _ in _) => cbv zeta
  | |- emits_only _ _ (if ?x then _ else _) =>
      destruct x eqn:?; try solve [exfalso; side]
  | |- emits_only _ _ (match ?x with _ => _ end) =>
      destruct x eqn:?; try solve [exfalso; side]
  end.

Ltac only_auto side := repeat only_step side.

Ltac unfold_script :=
  unfold reactive_updateAttachments, updateAttachments, query_callback,
    reactive_existingAttachmentsQuery, existingAttachments_callback,
    fileSelected, fileDrop, createAttachment_each, for_index,
    removeAttachment, removeDraft, onMessage, onUpdate, pasteAction,
    loadFiles_started, loadFiles_resumed, createAttachment_resumed,
    onDestroy, void,
    loadFiles, createAttachment, await_uploadFile, await_getFileMetadata,
    generateId, saveDraft, createAttachments, saveAttachment,
    deleteAttachment, await, issue.

Lemma execute_only (P : Comp -> Prop) (Q : Event -> Prop) (R : Op -> Prop)
  (env : Env) :
  (forall op, R op -> emits_only P Q (perform env op)) ->
  forall ops c tr,
    Forall R ops -> P c ->
    P (fst (execute env ops c tr)) /\
    exists ev, snd (execute env ops c tr) = tr ++ ev /\ Forall Q ev.
Proof.
  intros Hop ops. induction ops as [|op ops IH]; intros c tr HR HP; simpl.
  - split; [exact HP|]. exists []. split; [now rewrite app_nil_r | constructor].
  - inversion HR as [|? ? Hr HR']; subst.
    destruct (Hop op Hr c tr HP) as (H1 & ev1 & E1 & Q1).
    destruct (perform env op c tr) as [[r c1] tr1]. simpl in *.
    destruct (IH c1 tr1 HR' H1) as (H2 & ev2 & E2 & Q2).
    split; [exact H2|]. exists (ev1 ++ ev2).
    split; [now rewrite E2, E1, app_assoc | now apply Forall_app].
Qed.

(** ** What an execution never does *)

Ltac only_side := cbv beta in *; simpl in *; intuition congruence.

Lemma perform_no_store_call (env : Env) (sd sv : bool) (op : Op) :
  touches_store sd op = false ->
  emits_only (fun c => shouldSaveDraft c = sd /\ saved c = sv)
    (fun e => is_store_call e = false) (perform env op).
Proof.
  intros H. destruct op; simpl in H; try discriminate; simpl perform;
    unfold_script; only_auto only_side.
Qed.

(** X1.  While the component is mounted, as long as none of its handlers
    runs [createAttachments] and the draft is not removed together with its
    files, the component makes no call to the document store and deletes no
    blob, whatever files are selected, dropped or pasted and whatever the
    file service answers; [saved] keeps its value.  The teardown is not
    one of these handlers: when nothing has been committed, [onDestroy]
    then makes the calls of the rollback, or, with draft saving, those of
    the commit. *)
Theorem staging_never_touches_store (env : Env) (ops : list Op) (c : Comp)
  (tr : Trace) :
  Forall (fun op => touches_store (shouldSaveDraft c) op = false) ops ->
  saved (fst (execute env ops c tr)) = saved c /\
  (exists ev,
      snd (execute env ops c tr) = tr ++ ev /\
      Forall (fun e => is_store_call e = false) ev) /\
  (saved c = false ->
   onDestroy (fst (execute env ops c tr)) (snd (execute env ops c tr)) =
   if shouldSaveDraft c then
     (Ok tt, set_saved true (fst (execute env ops c tr)),
      snd (execute env ops c tr)
        ++ map Issue (createAttachments_calls (fst (execute env ops c tr))))
   else
     (Ok tt, fst (execute env ops c tr),
      snd (execute env ops c tr)
        ++ map Issue (rollback_calls (fst (execute env ops c tr))))).
Proof.
  intros Hops.
  destruct (execute_only
              (fun c' => shouldSaveDraft c' = shouldSaveDraft c /\ saved c' = saved c)
              (fun e => is_store_call e = false)
              (fun op => touches_store (shouldSaveDraft c) op = false)
              env (perform_no_store_call env (shouldSaveDraft c) (saved c))
              ops c tr Hops (conj eq_refl eq_refl))
    as ((Hd & Hs) & Hev).
  split; [assumption|]. split; [assumption|].
  intros Hsaved. rewrite Hsaved in Hs.
  destruct (shouldSaveDraft c) eqn:E.
  - now apply onDestroy_commit.
  - now apply onDestroy_rollback.
Qed.

Lemma staging_never_touches_store_witness :
  saved (fst (execute env_fulfil
                [FileSelected; RemoveAttachment attachment_png; Update "draft"]
                (created false) [])) = false /\
  (exists ev,
      snd (execute env_fulfil
             [FileSelected; RemoveAttachment attachment_png; Update "draft"]
             (created false) []) = [] ++ ev /\
      Forall (fun e => is_store_call e = false) ev) /\
  existsb is_store_call
    (snd (onDestroy
            (fst (execute env_fulfil
                    [FileSelected; RemoveAttachment attachment_png; Update "draft"]
                    (created false) []))
            (snd (execute env_fulfil
                    [FileSelected; RemoveAttachment attachment_png; Update "draft"]
                    (created false) [])))) = true.
Proof.
  destruct (staging_never_touches_store env_fulfil
              [FileSelected; RemoveAttachment attachment_png; Update "draft"]
              (created false) []) as (H1 & H2 & H3).
  - repeat constructor.
  - split; [exact H1|]. split; [exact H2|].
    rewrite (H3 eq_refl). vm_compute. reflexivity.
Defined.

Lemma perform_no_draft_save (env : Env) (op : Op) :
  emits_only (fun c => shouldSaveDraft c = false)
    (fun e => is_draft_save e = false) (perform env op).
Proof.
  destruct op; simpl perform; unfold_script; only_auto only_side.
Qed.

(** X2.  With [shouldSaveDraft] off, no operation of the component ever
    saves a draft, and the flag stays off. *)
Theorem no_draft_without_shouldSaveDraft (env : Env) (ops : list Op) (c : Comp)
  (tr : Trace) :
  shouldSaveDraft c = false ->
  shouldSaveDraft (fst (execute env ops c tr)) = false /\
  exists ev,
    snd (execute env ops c tr) = tr ++ ev /\
    Forall (fun e => is_draft_save e = false) ev.
Proof.
  intros Hd.
  apply (execute_only (fun c' => shouldSaveDraft c' = false)
           (fun e => is_draft_save e = false) (fun _ => True) env).
  - intros op _. apply perform_no_draft_save.
  - clear. induction ops; constructor; auto.
  - exact Hd.
Qed.

Lemma no_draft_without_shouldSaveDraft_witness :
  shouldSaveDraft
    (fst (execute env_draft
            [ReactiveUpdateAttachments; FileSelected;
             RemoveAttachment attachment_png; Message "hello"]
            (created false) [])) = false /\
  exists ev,
    snd (execute env_draft
           [ReactiveUpdateAttachments; FileSelected;
            RemoveAttachment attachment_png; Message "hello"]
           (created false) []) = [] ++ ev /\
    Forall (fun e => is_draft_save e = false) ev.
Proof.
  exact (no_draft_without_shouldSaveDraft env_draft
           [ReactiveUpdateAttachments; FileSelected;
            RemoveAttachment attachment_png; Message "hello"]
           (created false) [] eq_refl).
Defined.

(** ** The answer of the live query *)

Lemma keys_set (V : Type) (k : Ref) (v : V) (m : IdMap.t V) :
  IdMap.keys (IdMap.set k v m) = ref_add k (IdMap.keys m).
Proof.
  unfold ref_add, JSet.add, JSet.has.
  induction m as [|[k' v'] m IH]; simpl.
  - reflexivity.
  - destruct (String.eqb k k') eqn:E; simpl.
    + reflexivity.
    + rewrite IH. unfold IdMap.keys.
      destruct (existsb (String.eqb k) (map fst m)); reflexivity.
Qed.

Lemma NoDup_ref_add (x : Ref) (s : RefSet) : NoDup s -> NoDup (ref_add x s).
Proof.
  intros H. unfold ref_add, JSet.add. fold (ref_has x s).
  destruct (ref_has x s) eqn:E; [exact H|].
  apply NoDup_app; [exact H | repeat constructor; simpl; tauto |].
  intros y Hy [<-|[]]. apply ref_has_In in Hy. congruence.
Qed.

Lemma NoDup_fold_ref_add (l : list Ref) (acc : RefSet) :
  NoDup acc -> NoDup (fold_left (fun s x => ref_add x s) l acc).
Proof.
  revert acc. induction l as [|x l IH]; intros acc H; simpl.
  - exact H.
  - apply IH. now apply NoDup_ref_add.
Qed.

Lemma In_fold_ref_add (l : list Ref) (acc : RefSet) (y : Ref) :
  In y (fold_left (fun s x => ref_add x s) l acc) <-> In y l \/ In y acc.
Proof.
  revert acc. induction l as [|x l IH]; intros acc; simpl.
  - tauto.
  - rewrite IH, ref_add_In. intuition congruence.
Qed.

Lemma NoDup_of_list (l : list Ref) : NoDup (JSet.of_list String.eqb l).
Proof. apply (NoDup_fold_ref_add l []). constructor. Qed.

Lemma toIdMap_keys (arr : list Attachment.t) (m : IdMap.t Attachment.t) :
  IdMap.keys (fold_left (fun m p => IdMap.set (Attachment._id p) p m) arr m) =
  fold_left (fun s x => ref_add x s) (map Attachment._id arr) (IdMap.keys m).
Proof.
  revert m. induction arr as [|a arr IH]; intros m; simpl.
  - reflexivity.
  - rewrite IH, keys_set. reflexivity.
Qed.

Lemma wf_toIdMap (arr : list Attachment.t) : IdMap.wf (toIdMap arr).
Proof.
  unfold IdMap.wf, toIdMap. rewrite toIdMap_keys.
  apply NoDup_fold_ref_add. constructor.
Qed.

Lemma wf_delete (V : Type) (k : Ref) (m : IdMap.t V) :
  IdMap.wf m -> IdMap.wf (IdMap.delete k m).
Proof.
  unfold IdMap.wf, IdMap.delete, IdMap.keys.
  induction m as [|[k' v'] m IH]; simpl; intros H; [constructor|].
  inversion H as [|? ? Hn Hd]; subst.
  destruct (String.eqb k k'); simpl; [now apply IH|].
  constructor; [|now apply IH].
  intros Hin. apply Hn. apply in_map_iff in Hin.
  destruct Hin as [e [He Hin]]. apply filter_In in Hin.
  apply in_map_iff. exists e. tauto.
Qed.

Lemma get_fold_set_other (arr : list Attachment.t) (m : IdMap.t Attachment.t)
  (k : Ref) :
  (forall b, In b arr -> Attachment._id b <> k) ->
  IdMap.get k (fold_left (fun m p => IdMap.set (Attachment._id p) p m) arr m) =
  IdMap.get k m.
Proof.
  revert m. induction arr as [|a arr IH]; intros m H; simpl.
  - reflexivity.
  - rewrite IH by (intros; apply H; simpl; auto).
    apply get_set_ne. intros E. apply (H a); simpl; auto.
Qed.

Lemma fold_ref_add_prefix (l : list Ref) (acc : RefSet) :
  exists ext, fold_left (fun s x => ref_add x s) l acc = acc ++ ext.
Proof.
  revert acc. induction l as [|x l IH]; intros acc; simpl.
  - exists []. now rewrite app_nil_r.
  - destruct (IH (ref_add x acc)) as (ext & E). rewrite E.
    unfold ref_add, JSet.add. destruct (JSet.has String.eqb x acc).
    + eauto.
    + exists ([x] ++ ext). now rewrite app_assoc.
Qed.

(** [new Set(l)] lists the members of [l] in the order of their first
    occurrences: before [id] it holds the members that occur in [l] before
    the first [id]. *)
Lemma of_list_first (pre post : list Ref) (id : Ref) :
  ~ In id pre ->
  exists pre' post',
    JSet.of_list String.eqb (pre ++ id :: post) = pre' ++ id :: post' /\
    (forall y, In y pre' <-> In y pre).
Proof.
  intros Hid. unfold JSet.of_list.
  change (fun s x => JSet.add String.eqb x s) with (fun s x => ref_add x s).
  rewrite fold_left_app. simpl.
  match goal with
  | |- context [ref_add id ?A0] => remember A0 as A eqn:EA
  end.
  assert (HA : forall y, In y A <-> In y pre).
  { intros y. rewrite EA, In_fold_ref_add. simpl. tauto. }
  rewrite (ref_add_fresh id A) by (intros H; apply HA in H; contradiction).
  destruct (fold_ref_add_prefix post (A ++ [id])) as (ext & E).
  exists A, ext. split; [|exact HA].
  etransitivity; [exact E|]. now rewrite <- app_assoc.
Qed.

(** X3.  When the live query of the object's attachments answers with
    [res], [originalAttachments] becomes the set of the ids of [res]: it
    holds exactly the ids of the documents of [res], each once, in the
    order of their first occurrences in [res] (before an id come the ids
    that occur in [res] before its first occurrence, and no other).  The
    staged and the removed sets, [existingAttachments], the draft and
    [saved] are left alone, and the callback makes no call. *)
Theorem query_callback_rebuilds (res : list Attachment.t) (c : Comp) (tr : Trace) :
  exists c',
    query_callback res c tr = (Ok tt, c', tr) /\
    NoDup (originalAttachments c') /\
    (forall id, In id (originalAttachments c') <->
                exists a, In a res /\ Attachment._id a = id) /\
    (forall pre id post,
        map Attachment._id res = pre ++ id :: post ->
        ~ In id pre ->
        exists pre' post',
          originalAttachments c' = pre' ++ id :: post' /\
          (forall y, In y pre' <-> In y pre)) /\
    newAttachments c' = newAttachments c /\
    removedAttachments c' = removedAttachments c /\
    existingAttachments c' = existingAttachments c /\
    draftAttachments c' = draftAttachments c /\
    saved c' = saved c.
Proof.
  eexists. split; [reflexivity|].
  cbn [attachments originalAttachments newAttachments removedAttachments saved
       existingAttachments draftAttachments
       set_attachments set_originalAttachments].
  split; [apply NoDup_of_list|].
  split.
  { intros id. unfold JSet.of_list.
    change (fun s x => JSet.add String.eqb x s) with (fun s x => ref_add x s).
    rewrite In_fold_ref_add, in_map_iff. simpl.
    split.
    - intros [(a & E & Ha)|[]]. eauto.
    - intros (a & Ha & E). left. eauto. }
  split; [|repeat split].
  intros pre id post -> Hid. now apply of_list_first.
Qed.

(** ** Distinct ids *)

Lemma wf_clear (V : Type) : IdMap.wf (@IdMap.clear V).
Proof. constructor. Qed.

Ltac wf_side :=
  unfold well_formed in *;
  cbn [attachments newAttachments originalAttachments
       set_attachments set_loading set_inputFile set_saved
       set_draftAttachments set_originalAttachments set_newAttachments
       set_removedAttachments set_progress set_existingAttachments] in *;
  first
    [ exact I
    | intuition (auto using wf_set, wf_delete, wf_toIdMap, wf_clear,
                   NoDup_ref_add, NoDup_of_list, NoDup_nil) ].

Lemma perform_well_formed (env : Env) (op : Op) :
  emits_only well_formed (fun _ => True) (perform env op).
Proof.
  destruct op; simpl perform; unfold_script; only_auto wf_side.
Qed.

(** X4.  The list model is that of a JavaScript [Map] and [Set]: whatever
    the component does, the attachments map holds each id once (so
    [attachments.size] counts distinct ids), and so do [newAttachments] and
    [originalAttachments]. *)
Theorem execute_well_formed (env : Env) (ops : list Op) (c : Comp) (tr : Trace) :
  well_formed c -> well_formed (fst (execute env ops c tr)).
Proof.
  intros H.
  apply (execute_only well_formed (fun _ => True) (fun _ => True) env).
  - intros op _. apply perform_well_formed.
  - clear. induction ops; constructor; auto.
  - exact H.
Qed.

Lemma execute_well_formed_witness :
  well_formed
    (fst (execute env_draft
            [ReactiveUpdateAttachments; FileSelected;
             QueryResult [attachment_png; attachment_png];
             RemoveAttachment attachment_png; Message "hello"]
            (created true) [])).
Proof.
  apply (execute_well_formed env_draft
           [ReactiveUpdateAttachments; FileSelected;
            QueryResult [attachment_png; attachment_png];
            RemoveAttachment attachment_png; Message "hello"]
           (created true) []).
  repeat split; constructor.
Defined.

(** ** Removing the draft *)

Lemma removeDraft_run (removeFiles : bool) (c : Comp) (tr : Trace) :
  removeDraft removeFiles c tr =
  (Ok tt, c,
   tr ++ DraftRemove (draftKey c)
      :: (if removeFiles
          then map Issue
                 (flat_map (fun p =>
                              match IdMap.get p (attachments c) with
                              | Some a => [DeleteFile (Attachment.file a)]
                              | None => []
                              end) (newAttachments c))
          else [])).
Proof.
  unfold removeDraft. unfold bind at 1. unfold get at 1.
  unfold bind at 1. unfold emit at 1.
  destruct removeFiles.
  - rewrite (forEach_calls Ref _
               (fun p => match IdMap.get p (attachments c) with
                         | Some a => [DeleteFile (Attachment.file a)]
                         | None => []
                         end)).
    + now rewrite <- app_assoc.
    + intros p tr0. unfold bind, get.
      destruct (IdMap.get p (attachments c)) as [a|].
      * reflexivity.
      * unfold ret. simpl. now rewrite app_nil_r.
  - unfold ret. reflexivity.
Qed.

(** X5.  [removeDraft] removes the draft under the key that was bound when
    the component was created ([draftKey], which an assignment of
    [objectId] does not change) and changes no variable of the component.  With [removeFiles] it also
    starts, without awaiting, one [deleteFile] for the blob of every id of
    [newAttachments] that is still in the map, and nothing else: it never
    calls [removeCollection], not even for an id of
    [originalAttachments].  Without [removeFiles] it makes no call. *)
Theorem removeDraft_effects (removeFiles : bool) (c : Comp) (tr : Trace) :
  exists ev,
    removeDraft removeFiles c tr =
    (Ok tt, c, tr ++ DraftRemove (draftKey c) :: ev) /\
    (removeFiles = false -> ev = []) /\
    (removeFiles = true ->
     (forall p a,
         In p (newAttachments c) ->
         IdMap.get p (attachments c) = Some a ->
         In (Issue (DeleteFile (Attachment.file a))) ev) /\
     (forall e, In e ev ->
                exists p a,
                  In p (newAttachments c) /\
                  IdMap.get p (attachments c) = Some a /\
                  e = Issue (DeleteFile (Attachment.file a)))).
Proof.
  eexists. split; [apply removeDraft_run|].
  split; [intros ->; reflexivity|]. intros ->.
  split.
  - intros p a Hp Ha. apply in_map, in_flat_map. exists p.
    split; [exact Hp|]. rewrite Ha. simpl. auto.
  - intros e He. apply in_map_iff in He. destruct He as (call & <- & Hc).
    apply in_flat_map in Hc. destruct Hc as (p & Hp & Hc). exists p.
    destruct (IdMap.get p (attachments c)) as [a|]; [|contradiction].
    exists a. destruct Hc as [<-|[]]. auto.
Qed.

(** ** Commits, repeated and reconciled *)

Lemma saves_reconciled (c : Comp) :
  (forall p a,
      In p (newAttachments c) ->
      IdMap.get p (attachments c) = Some a ->
      In (Attachment._id a) (existingAttachments c)) ->
  createAttachments_calls c =
  map (deleteAttachment_call c) (removedAttachments c).
Proof.
  intros H. unfold createAttachments_calls.
  replace (flat_map _ (newAttachments c)) with (@nil Call); [reflexivity|].
  symmetry. generalize (fun p => H p). generalize (newAttachments c).
  intros l. induction l as [|p l IH]; intros Hl; simpl; [reflexivity|].
  rewrite IH by (intros q a Hq; apply Hl; simpl; auto).
  destruct (IdMap.get p (attachments c)) as [a|] eqn:E; [|reflexivity].
  unfold saveAttachment_calls.
  assert (Hin : In (Attachment._id a) (existingAttachments c))
    by (apply (Hl p a); simpl; auto).
  apply includes_In in Hin. now rewrite Hin.
Qed.

(** X6.  Once the live query reports every staged attachment that is still
    in the map as persisted, a commit saves nothing again: its calls are
    the removals of [removedAttachments] only, and a submission with
    nothing removed makes no call at all and dispatches at once, whatever
    the client would answer. *)
Theorem commit_after_reconciliation (env : Env) (c : Comp) (tr : Trace)
  (markup : Markup) :
  (forall p a,
      In p (newAttachments c) ->
      IdMap.get p (attachments c) = Some a ->
      In (Attachment._id a) (existingAttachments c)) ->
  createAttachments c tr =
    (Ok (map (deleteAttachment_call c) (removedAttachments c)),
     set_saved true c,
     tr ++ map Issue (map (deleteAttachment_call c) (removedAttachments c))) /\
  (removedAttachments c = [] ->
   onMessage env markup c tr =
   (Ok tt, set_loading false (set_saved true (set_loading true c)),
    tr ++ [Dispatch "message"
             {| message := markup;
                detail_attachments := IdMap.size (attachments c) |}])).
Proof.
  intros H. pose proof (saves_reconciled c H) as Hcalls. split.
  - rewrite createAttachments_run, Hcalls. reflexivity.
  - intros Hrem. rewrite onMessage_run. cbv zeta.
    rewrite Hcalls, Hrem. simpl. now rewrite app_nil_r.
Qed.

Lemma commit_after_reconciliation_witness :
  onMessage env_client_rejects "hello"
    (set_existingAttachments ["id-5"; "id-9"] (two_staged false)) [] =
  (Ok tt,
   set_loading false
     (set_saved true
        (set_loading true
           (set_existingAttachments ["id-5"; "id-9"] (two_staged false)))),
   [Dispatch "message" {| message := "hello"; detail_attachments := 2 |}]).
Proof.
  refine (proj2 (commit_after_reconciliation env_client_rejects
                   (set_existingAttachments ["id-5"; "id-9"] (two_staged false))
                   [] "hello" _) eq_refl).
  intros p a Hp Ha.
  destruct Hp as [<-|[<-|[]]]; vm_compute in Ha; inversion Ha; subst;
    vm_compute; tauto.
Defined.

(** X7.  A commit clears neither [newAttachments] nor [removedAttachments]:
    run again before the live query has answered, [createAttachments]
    makes every call of the first run a second time, the removals
    included. *)
Theorem commit_twice (c : Comp) (tr : Trace) :
  exists calls c' tr',
    createAttachments c tr = (Ok calls, c', tr') /\
    tr' = tr ++ map Issue calls /\
    newAttachments c' = newAttachments c /\
    removedAttachments c' = removedAttachments c /\
    createAttachments c' tr' = (Ok calls, c', tr' ++ map Issue calls).
Proof.
  exists (createAttachments_calls c), (set_saved true c),
         (tr ++ map Issue (createAttachments_calls c)).
  split; [apply createAttachments_run|].
  repeat (split; [reflexivity|]).
  apply (createAttachments_run (set_saved true c)).
Qed.

(** ** Removals before a teardown or a submission *)

Lemma get_removed (a : Attachment.t) (c : Comp) (p : Ref) :
  IdMap.get p (attachments (removed a c)) =
  if String.eqb p (Attachment._id a) then None
  else IdMap.get p (attachments c).
Proof.
  unfold removed. cbn [attachments set_attachments set_removedAttachments].
  destruct (String.eqb_spec p (Attachment._id a)) as [->|Hne].
  - apply get_delete_eq.
  - now apply get_delete_ne.
Qed.



(** X9.  Without draft saving, a submission that follows a removal deletes
    the removed attachment ([removeCollection] if it was an original one,
    [deleteFile] of its blob otherwise) and saves only documents that are
    in the map under another id: a staged attachment removed before the
    submission is never added to the store.  The calls [calls] are all the
    calls of the submission: after them the trace holds their settlements
    and the ['message'] event, or the one rejection that makes the handler
    throw. *)
Theorem remove_then_submit (env : Env) (a : Attachment.t) (c : Comp)
  (tr : Trace) (markup : Markup) :
  shouldSaveDraft c = false ->
  exists c1 calls r c2 rest,
    removeAttachment env a c tr = (Ok tt, c1, tr) /\
    onMessage env markup c1 tr = (r, c2, tr ++ map Issue calls ++ rest) /\
    In (deleteAttachment_call c a) calls /\
    (forall cls sp oid ocls col doc id,
        In (AddCollection cls sp oid ocls col doc id) calls ->
        exists p,
          p <> Attachment._id a /\
          In p (newAttachments c) /\
          IdMap.get p (attachments c) = Some doc) /\
    ((r = Ok tt /\
      rest = map (fun call => Settled call None) calls
               ++ [Dispatch "message"
                     {| message := markup;
                        detail_attachments := IdMap.size (attachments c1) |}]) \/
     (exists call err,
         r = Thrown err /\ In call calls /\ rest = [Settled call (Some err)])) /\
    Forall (fun e => is_store_call e = false) rest.
Proof.
  intros Hd. exists (removed a c), (createAttachments_calls (removed a c)).
  pose proof (onMessage_run env markup (removed a c) tr) as Hrun.
  cbv zeta in Hrun.
  assert (Hdel : In (deleteAttachment_call c a)
                    (createAttachments_calls (removed a c))).
  { apply (createAttachments_calls_delete (removed a c) a).
    unfold removed, attachment_add, JSet.add. simpl.
    destruct (JSet.has Attachment.eqb a (removedAttachments c)) eqn:E.
    - unfold JSet.has in E. apply existsb_exists in E.
      destruct E as (x & Hx & E). unfold Attachment.eqb in E.
      destruct (Attachment.eq_dec a x); [now subst | discriminate].
    - apply in_or_app. right. simpl. auto. }
  assert (Hadd : forall cls sp oid ocls col doc id,
             In (AddCollection cls sp oid ocls col doc id)
                (createAttachments_calls (removed a c)) ->
             exists p, p <> Attachment._id a /\ In p (newAttachments c) /\
                       IdMap.get p (attachments c) = Some doc).
  { intros cls sp oid ocls col doc id Hin. unfold createAttachments_calls in Hin.
    apply in_app_or in Hin. destruct Hin as [Hin|Hin].
    - apply in_flat_map in Hin. destruct Hin as (p & Hp & Hin).
      rewrite get_removed in Hin.
      destruct (String.eqb_spec p (Attachment._id a)) as [->|Hne];
        [contradiction|].
      destruct (IdMap.get p (attachments c)) as [a'|] eqn:E; [|contradiction].
      unfold saveAttachment_calls in Hin.
      destruct (negb _); [|contradiction].
      destruct Hin as [Hin|[]]. inversion Hin; subst. exists p. auto.
    - apply in_map_iff in Hin. destruct Hin as (x & Hx & _).
      unfold deleteAttachment_call in Hx.
      destruct (ref_has _ _); discriminate. }
  destruct (rejection env _ _) as [[call err]|] eqn:Hrej in Hrun.
  - apply rejection_Some in Hrej. destruct Hrej as [Hin _].
    do 3 eexists. split; [rewrite removeAttachment_run, Hd; reflexivity|].
    split; [rewrite Hrun, <- app_assoc; reflexivity|].
    split; [exact Hdel|]. split; [exact Hadd|].
    split; [right; exists call, err; auto|].
    repeat constructor.
  - do 3 eexists. split; [rewrite removeAttachment_run, Hd; reflexivity|].
    split; [rewrite Hrun, <- app_assoc; reflexivity|].
    split; [exact Hdel|]. split; [exact Hadd|].
    split; [left; split; reflexivity|].
    apply Forall_app. split; [|repeat constructor].
    apply Forall_forall. intros e He. apply in_map_iff in He.
    destruct He as (call & <- & _). reflexivity.
Qed.

Lemma remove_then_submit_witness :
  exists c1 calls r c2 rest,
    removeAttachment env_fulfil attachment_png (two_staged false) [] =
    (Ok tt, c1, []) /\
    onMessage env_fulfil "hello" c1 [] = (r, c2, [] ++ map Issue calls ++ rest) /\
    In (DeleteFile "blob-a.png") calls /\
    Forall (fun e => is_store_call e = false) rest.
Proof.
  destruct (remove_then_submit env_fulfil attachment_png (two_staged false) []
              "hello" eq_refl)
    as (c1 & calls & r & c2 & rest & Hrem & Hmsg & Hdel & _ & _ & Hrest).
  exists c1, calls, r, c2, rest. split; [exact Hrem|].
  split; [exact Hmsg|]. split; [exact Hdel | exact Hrest].
Defined.

(** ** A rejected submission *)

Lemma rejection_In (env : Env) (n : nat) (p : Promise) (call : Call) (err : Err) :
  In call p -> client_result env n call = Some err ->
  exists call' err', rejection env n p = Some (call', err').
Proof.
  induction p as [|c0 p IH]; simpl; [contradiction|].
  intros Hin Herr. destruct (client_result env n c0) as [e|] eqn:E; [eauto|].
  destruct Hin as [->|Hin]; [congruence | auto].
Qed.

(** X10.  When the client rejects a call of the commit, the submission
    throws with the component left loading ([loading] is not reset) and
    already marked as saved; the attachments map and the staged set are as
    before, nothing is dispatched, and a teardown that follows rolls
    nothing back. *)
Theorem submit_rejected (env : Env) (markup : Markup) (c : Comp) (tr : Trace)
  (call : Call) (err : Err) :
  In call (createAttachments_calls c) ->
  client_result env (length tr + length (createAttachments_calls c)) call
    = Some err ->
  exists call' err' c',
    onMessage env markup c tr =
    (Thrown err', c',
     tr ++ map Issue (createAttachments_calls c) ++ [Settled call' (Some err')]) /\
    loading c' = true /\
    saved c' = true /\
    attachments c' = attachments c /\
    newAttachments c' = newAttachments c /\
    removedAttachments c' = removedAttachments c /\
    forall tr', onDestroy c' tr' = (Ok tt, c', tr').
Proof.
  intros Hin Herr.
  pose proof (onMessage_run env markup c tr) as Hrun. cbv zeta in Hrun.
  rewrite length_app, length_map in Hrun.
  destruct (rejection_In env _ _ call err Hin Herr) as (call' & err' & Hrej).
  rewrite Hrej in Hrun.
  exists call', err', (set_saved true (set_loading true c)).
  split; [rewrite Hrun, <- app_assoc; reflexivity|].
  repeat (split; [reflexivity|]).
  intros tr'. now apply onDestroy_saved.
Qed.

Lemma submit_rejected_witness :
  exists call' err' c',
    onMessage env_client_rejects "hello" (two_staged false) [] =
    (Thrown err', c',
     [] ++ map Issue (createAttachments_calls (two_staged false))
        ++ [Settled call' (Some err')]) /\
    loading c' = true /\
    saved c' = true.
Proof.
  destruct (submit_rejected env_client_rejects "hello" (two_staged false) []
              (AddCollection "attachment:class:Attachment" "sp" "obj" "cls"
                 "attachments" attachment_png "id-5") "offline")
    as (call' & err' & c' & Hrun & Hl & Hs & _).
  - vm_compute. auto.
  - reflexivity.
  - exists call', err', c'. auto.
Defined.

(** ** Every file is tried, once and in order *)

(** X11.  The three staging handlers never throw and try every file they
    are given exactly once, in order, whatever the file service answers: a
    rejected upload does not stop the files after it.  With a non-empty
    list they end with the progress flag cleared, and [fileSelected] with
    the file input emptied. *)
Theorem staging_tries_every_file (env : Env) (c : Comp) (tr : Trace) :
  (forall file list,
      input_files (inputFile c) = Some (file :: list) ->
      exists c' ev,
        fileSelected env c tr = (Ok tt, c', tr ++ ev) /\
        uploads ev = file :: list /\
        progress c' = false /\
        input_files (inputFile c') = Some []) /\
  (forall e file list,
      option_map files (dataTransfer e) = Some (file :: list) ->
      exists c' ev,
        fileDrop env e c tr = (Ok tt, c', tr ++ ev) /\
        uploads ev = file :: list /\
        progress c' = false) /\
  (forall evt,
      exists c' ev,
        loadFiles env evt c tr = (Ok tt, c', tr ++ ev) /\
        uploads ev = match clipboardData evt with
                     | Some d => files d
                     | None => []
                     end /\
        progress c' = false).
Proof.
  split; [|split].
  - intros file list Hf. rewrite (fileSelected_files env c tr file list Hf).
    rewrite createAttachment_each_forEach.
    destruct (forEach_createAttachment_uploads env (file :: list)
                (set_progress true c) (tr ++ [Tick])) as (c1 & ev & E & U).
    rewrite E. do 2 eexists. split; [now rewrite <- app_assoc|].
    split; [exact U|]. split; reflexivity.
  - intros e file list Hf. rewrite (fileDrop_files env e c tr file list Hf).
    rewrite createAttachment_each_forEach.
    destruct (forEach_createAttachment_uploads env (file :: list)
                (set_progress true c) tr) as (c1 & ev & E & U).
    rewrite E. do 2 eexists. split; [reflexivity|].
    split; [exact U | reflexivity].
  - intros evt. unfold loadFiles.
    unfold bind at 1. unfold modify at 1. unfold bind at 1.
    destruct (forEach_createAttachment_uploads env
                (match clipboardData evt with
                 | Some d => files d
                 | None => []
                 end) (set_progress true c) tr) as (c1 & ev & E & U).
    rewrite E. unfold modify. do 2 eexists. split; [reflexivity|].
    split; [exact U | reflexivity].
Qed.

(** ** Drafts, saved and loaded *)

Lemma toIdMap_keys_of_entries (d acc : IdMap.t Attachment.t) :
  IdMap.keys (fold_left (fun m e => IdMap.set (fst e) (snd e) m) d acc) =
  fold_left (fun s e => ref_add (fst e) s) d (IdMap.keys acc).
Proof.
  revert acc. induction d as [|e d IH]; intros acc; simpl.
  - reflexivity.
  - rewrite IH, keys_set. reflexivity.
Qed.

Lemma updateAttachments_loads (env : Env) (oid : Ref) (c : Comp) (tr : Trace)
  (d : AttachmentRecord) :
  shouldSaveDraft c = true ->
  draftsStore env (length tr) (draftKey c) = Some d ->
  IdMap.wf d ->
  exists c',
    updateAttachments env oid c tr = (Ok tt, c', tr) /\
    attachments c' = d /\
    newAttachments c' = IdMap.keys d /\
    originalAttachments c' = [] /\
    removedAttachments c' = [].
Proof.
  intros Hd Hdraft Hwf.
  rewrite (updateAttachments_draft env oid c tr d Hd Hdraft).
  eexists. split; [reflexivity|].
  cbn [attachments newAttachments originalAttachments removedAttachments
       set_removedAttachments set_originalAttachments set_newAttachments
       set_attachments set_draftAttachments].
  unfold Object_entries. split; [|split; [|split; reflexivity]].
  - apply (fold_set_wf _ d []). exact Hwf.
  - change (@nil Ref) with (IdMap.keys (@nil (Ref * Attachment.t))).
    rewrite <- (toIdMap_keys_of_entries d []).
    rewrite (fold_set_wf _ d []) by exact Hwf. reflexivity.
Qed.

(** A record in which a key that is an array index was created after
    another key: JavaScript enumerates the index first. *)
Example Object_fromEntries_reorders :
  IdMap.keys
    (Object_fromEntries [("id-5", attachment_png); ("7", attachment_txt)]) =
  ["7"; "id-5"].
Proof. reflexivity. Qed.

(** X12.  A draft round trip: with draft saving on, [saveDraft] writes
    [Object.fromEntries(attachments)] under the key the component was
    created with, and when the drafts store gives that record back
    [updateAttachments] restores a map with the same entries: the same
    attachment under every id and the same size.  The order of the
    restored map is that in which the record is enumerated, keys that are
    array indices first; it is the order of the map that was saved when no
    id is an array index.  Every restored attachment then counts as new,
    also those that were original before: [newAttachments] is the key list
    of the restored map and [originalAttachments] and [removedAttachments]
    are empty. *)
Theorem draft_round_trip (env : Env) (oid : Ref) (c : Comp) (tr : Trace) :
  shouldSaveDraft c = true ->
  IdMap.wf (attachments c) ->
  exists d c1,
    saveDraft c tr = (Ok tt, c1, tr ++ [DraftSave (draftKey c) d]) /\
    d = Object_fromEntries (attachments c) /\
    draftKey c1 = draftKey c /\
    (draftsStore env (S (length tr)) (draftKey c) = Some d ->
     exists c2,
       updateAttachments env oid c1 (tr ++ [DraftSave (draftKey c) d]) =
       (Ok tt, c2, tr ++ [DraftSave (draftKey c) d]) /\
       attachments c2 = Object_entries d /\
       (forall k, IdMap.get k (attachments c2) = IdMap.get k (attachments c)) /\
       Permutation (attachments c2) (attachments c) /\
       IdMap.size (attachments c2) = IdMap.size (attachments c) /\
       (Forall (fun k => array_index k = None) (IdMap.keys (attachments c)) ->
        attachments c2 = attachments c) /\
       newAttachments c2 = IdMap.keys (attachments c2) /\
       originalAttachments c2 = [] /\
       removedAttachments c2 = []).
Proof.
  intros Hd Hwf.
  pose proof (Object_fromEntries_perm (attachments c) Hwf) as Hp.
  exists (Object_fromEntries (attachments c)),
         (set_draftAttachments (Some (Object_fromEntries (attachments c))) c).
  split.
  { unfold saveDraft, bind, get, modify, emit. now rewrite Hd. }
  split; [reflexivity|]. split; [reflexivity|].
  intros Hstore.
  destruct (updateAttachments_loads env oid
              (set_draftAttachments (Some (Object_fromEntries (attachments c))) c)
              (tr ++ [DraftSave (draftKey c) (Object_fromEntries (attachments c))])
              (Object_fromEntries (attachments c)))
    as (c2 & Hrun & Ha & Hn & Ho & Hr).
  - exact Hd.
  - rewrite length_app_one. exact Hstore.
  - apply (wf_perm (attachments c)); [now apply Permutation_sym | exact Hwf].
  - exists c2. split; [exact Hrun|].
    rewrite Ha, Hn. unfold Object_entries.
    split; [reflexivity|].
    split; [intros k; apply get_perm; [now apply Permutation_sym | exact Hwf]|].
    split; [exact Hp|].
    split; [unfold IdMap.size; now apply Permutation_length|].
    split; [intros Hplain; now apply Object_fromEntries_wf|].
    auto.
Qed.

Lemma draft_round_trip_witness :
  exists d c1,
    saveDraft one_staged [] = (Ok tt, c1, [] ++ [DraftSave "obj_attachments" d]) /\
    exists c2,
      updateAttachments env_draft "obj" c1 ([] ++ [DraftSave "obj_attachments" d]) =
      (Ok tt, c2, [] ++ [DraftSave "obj_attachments" d]) /\
      attachments c2 = [("id-5", attachment_png)] /\
      newAttachments c2 = ["id-5"].
Proof.
  destruct (draft_round_trip env_draft "obj" one_staged [] eq_refl)
    as (d & c1 & Hsave & Hd & _ & Hload).
  - repeat constructor. simpl. tauto.
  - exists d, c1. split; [exact Hsave|].
    destruct Hload as (c2 & Hrun & Ha & _ & _ & _ & _ & Hn & _).
    + rewrite Hd. reflexivity.
    + exists c2. split; [exact Hrun|].
      rewrite Hn, Ha, Hd. split; reflexivity.
Defined.

(** ** Removing an attachment *)

Lemma delete_absent (V : Type) (k : Ref) (m : IdMap.t V) :
  IdMap.get k m = None -> IdMap.delete k m = m.
Proof.
  unfold IdMap.delete. induction m as [|[k' v'] m IH]; simpl; [reflexivity|].
  destruct (String.eqb k k'); [discriminate|]. intros H. simpl. now rewrite IH.
Qed.

Lemma size_delete_wf (V : Type) (k : Ref) (v : V) (m : IdMap.t V) :
  IdMap.wf m -> IdMap.get k m = Some v ->
  S (IdMap.size (IdMap.delete k m)) = IdMap.size m.
Proof.
  unfold IdMap.wf, IdMap.size.
  induction m as [|[k' v'] m IH]; simpl; [discriminate|]. intros Hwf.
  inversion Hwf as [|? ? Hn Hd]; subst.
  unfold IdMap.delete. simpl. destruct (String.eqb_spec k k') as [->|Hne]; simpl.
  - intros _. fold (IdMap.delete k' m). rewrite delete_absent; [reflexivity|].
    now apply get_None_keys.
  - intros H. fold (IdMap.delete k m). now rewrite (IH Hd H).
Qed.

Lemma attachment_add_In (a : Attachment.t) (s : AttachmentSet) :
  In a (attachment_add a s).
Proof.
  unfold attachment_add, JSet.add.
  destruct (JSet.has Attachment.eqb a s) eqn:E.
  - unfold JSet.has in E. apply existsb_exists in E.
    destruct E as (x & Hx & E). unfold Attachment.eqb in E.
    destruct (Attachment.eq_dec a x); [now subst | discriminate].
  - apply in_or_app. right. left. reflexivity.
Qed.

(** X13.  However it ends, also when its commit is rejected,
    [removeAttachment] has taken exactly the entry under the attachment's
    id out of the map (the other ids keep their attachments, and the size
    drops by one when the id was there), has put the attachment into
    [removedAttachments], and has left its id in [newAttachments]. *)
Theorem removeAttachment_removes (env : Env) (a : Attachment.t) (c : Comp)
  (tr : Trace) :
  exists r c' tr',
    removeAttachment env a c tr = (r, c', tr') /\
    IdMap.get (Attachment._id a) (attachments c') = None /\
    (forall k, k <> Attachment._id a ->
               IdMap.get k (attachments c') = IdMap.get k (attachments c)) /\
    (IdMap.wf (attachments c) ->
     forall v, IdMap.get (Attachment._id a) (attachments c) = Some v ->
               S (IdMap.size (attachments c')) = IdMap.size (attachments c)) /\
    In a (removedAttachments c') /\
    newAttachments c' = newAttachments c.
Proof.
  assert (H : forall c',
             attachments c' = attachments (removed a c) ->
             removedAttachments c' = removedAttachments (removed a c) ->
             newAttachments c' = newAttachments c ->
             IdMap.get (Attachment._id a) (attachments c') = None /\
             (forall k, k <> Attachment._id a ->
                        IdMap.get k (attachments c') = IdMap.get k (attachments c)) /\
             (IdMap.wf (attachments c) ->
              forall v, IdMap.get (Attachment._id a) (attachments c) = Some v ->
                        S (IdMap.size (attachments c')) = IdMap.size (attachments c)) /\
             In a (removedAttachments c') /\
             newAttachments c' = newAttachments c).
  { intros c' -> -> Hn. unfold removed.
    cbn [attachments removedAttachments set_attachments set_removedAttachments].
    split; [apply get_delete_eq|].
    split; [intros k Hk; now apply get_delete_ne|].
    split; [intros Hwf v Hv; now apply (size_delete_wf _ _ v)|].
    split; [apply attachment_add_In | exact Hn]. }
  rewrite removeAttachment_run. cbv zeta.
  destruct (shouldSaveDraft c).
  - destruct (rejection env _ _) as [[call err]|];
      do 3 eexists; (split; [reflexivity|]); apply H; reflexivity.
  - do 3 eexists. split; [reflexivity|]. apply H; reflexivity.
Qed.

(** ** Staging only adds *)

Lemma size_set_bounds (V : Type) (k : Ref) (v : V) (m : IdMap.t V) :
  IdMap.size m <= IdMap.size (IdMap.set k v m) <= S (IdMap.size m).
Proof.
  unfold IdMap.size. induction m as [|[k' v'] m IH]; simpl; [lia|].
  destruct (String.eqb k k'); simpl; lia.
Qed.

Lemma grows_by_refl (c : Comp) : grows_by 0 c c.
Proof. unfold grows_by. repeat split; try lia; apply incl_refl. Qed.

Lemma grows_by_same (c c' : Comp) :
  attachments c' = attachments c -> newAttachments c' = newAttachments c ->
  grows_by 0 c c'.
Proof.
  intros Ha Hn. unfold grows_by. rewrite Ha, Hn.
  repeat split; try lia; apply incl_refl.
Qed.

Lemma grows_by_trans (n m : nat) (c c1 c2 : Comp) :
  grows_by n c c1 -> grows_by m c1 c2 -> grows_by (n + m) c c2.
Proof.
  unfold grows_by. intros (A1 & B1 & C1 & D1) (A2 & B2 & C2 & D2).
  repeat split; try lia; eapply incl_tran; eassumption.
Qed.

Lemma createAttachment_grows (env : Env) (file : File.t) (c : Comp) (tr : Trace) :
  grows_by 1 c (snd (fst (createAttachment env file c tr))).
Proof.
  rewrite createAttachment_run.
  destruct (uploadFile_result env (S (length tr)) file) as [err|uuid].
  - simpl. unfold grows_by. repeat split; try lia; apply incl_refl.
  - destruct (getFileMetadata_result env (3 + length tr) file uuid)
      as [err|metadata].
    + simpl. unfold grows_by. repeat split; try lia; apply incl_refl.
    + cbv zeta.
      assert (G : forall c',
                 attachments c' =
                   IdMap.set (generateId_result env (4 + length tr))
                     (staged c (generateId_result env (4 + length tr)) file
                        uuid metadata) (attachments c) ->
                 newAttachments c' =
                   ref_add (generateId_result env (4 + length tr))
                     (newAttachments c) ->
                 grows_by 1 c c').
      { intros c' Ha Hn. unfold grows_by. rewrite Ha, Hn.
        pose proof (size_set_bounds _ (generateId_result env (4 + length tr))
                      (staged c (generateId_result env (4 + length tr)) file
                         uuid metadata) (attachments c)).
        repeat split; try lia.
        - rewrite keys_set. intros k Hk. apply ref_add_In. auto.
        - intros k Hk. apply ref_add_In. auto. }
      destruct (shouldSaveDraft c); apply G; reflexivity.
Qed.

Lemma forEach_createAttachment_grows (env : Env) (l : list File.t) (c : Comp)
  (tr : Trace) :
  grows_by (length l) c (snd (fst (forEach l (createAttachment env) c tr))).
Proof.
  revert c tr. induction l as [|file l IH]; intros c tr; simpl.
  - apply grows_by_refl.
  - pose proof (createAttachment_grows env file c tr) as G1.
    destruct (createAttachment_emits env file c tr) as (c1 & ev & E & _).
    unfold bind. rewrite E in *. simpl in G1.
    apply (grows_by_trans 1 (length l) c c1); [exact G1 | apply IH].
Qed.

(** X14.  Staging only adds: a selection, a drop or a paste of [n] files
    adds at most [n] attachments to the map and drops none; the ids that
    were in the map and in [newAttachments] are still there afterwards,
    whatever the file service answers. *)
Theorem staging_only_adds (env : Env) (c : Comp) (tr : Trace) :
  grows_by
    (length (match input_files (inputFile c) with
             | Some list => list
             | None => []
             end))
    c (snd (fst (fileSelected env c tr))) /\
  (forall e,
      grows_by
        (length (match dataTransfer e with
                 | Some d => files d
                 | None => []
                 end))
        c (snd (fst (fileDrop env e c tr)))) /\
  (forall evt,
      grows_by
        (length (match clipboardData evt with
                 | Some d => files d
                 | None => []
                 end))
        c (snd (fst (loadFiles env evt c tr)))).
Proof.
  split; [|split].
  - destruct (input_files (inputFile c)) as [[|file list]|] eqn:Hf.
    + rewrite fileSelected_empty by auto. now apply grows_by_same.
    + rewrite (fileSelected_files env c tr file list Hf).
      rewrite createAttachment_each_forEach.
      pose proof (forEach_createAttachment_grows env (file :: list)
                    (set_progress true c) (tr ++ [Tick])) as G.
      destruct (forEach (file :: list) (createAttachment env)
                  (set_progress true c) (tr ++ [Tick])) as [[r c1] tr1].
      exact G.
    + rewrite fileSelected_empty by auto. now apply grows_by_same.
  - intros e.
    destruct (dataTransfer e) as [d|] eqn:Hd.
    + destruct (files d) as [|file list] eqn:Hf.
      * rewrite fileDrop_empty by (rewrite Hd; simpl; rewrite Hf; auto).
        now apply grows_by_same.
      * rewrite (fileDrop_files env e c tr file list)
          by (rewrite Hd; simpl; now rewrite Hf).
        rewrite createAttachment_each_forEach.
        pose proof (forEach_createAttachment_grows env (file :: list)
                      (set_progress true c) tr) as G.
        destruct (forEach (file :: list) (createAttachment env)
                    (set_progress true c) tr) as [[r c1] tr1].
        exact G.
    + rewrite fileDrop_empty by (rewrite Hd; auto). now apply grows_by_same.
  - intros evt. unfold loadFiles.
    unfold bind at 1. unfold modify at 1. unfold bind at 1.
    pose proof (forEach_createAttachment_grows env
                  (match clipboardData evt with
                   | Some d => files d
                   | None => []
                   end) (set_progress true c) tr) as G.
    destruct (forEach _ (createAttachment env) (set_progress true c) tr)
      as [[[u|e] c1] tr1]; exact G.
Qed.

(** ** Initialisation without a draft *)

(** X15.  The reactive initialisation does nothing at all for an empty
    [objectId].  Otherwise, when the drafts store has no draft under the
    key that was bound when the component was created ([draftKey], not a
    key made from the [objectId] of the moment), or has one but
    [shouldSaveDraft] is off, the draft is not loaded: the attachments map and the staged sets are left as they
    are and the live query for the attachments of [objectId] (with the
    blob looked up) is started instead. *)
Theorem initialisation_without_draft (env : Env) (c : Comp) (tr : Trace) :
  (objectId c = "" -> reactive_updateAttachments env c tr = (Ok tt, c, tr)) /\
  (objectId c <> "" ->
   draftsStore env (length tr) (draftKey c) = None \/ shouldSaveDraft c = false ->
   exists c',
     reactive_updateAttachments env c tr =
     (Ok tt, c',
      tr ++ [LiveQuery query attachment_class_Attachment
               {| q_space := None; q_attachedTo := Some (objectId c);
                  q_attachedToClass := None; q__id_in := None |}
               [("file", core_class_Blob)]]) /\
     attachments c' = attachments c /\
     newAttachments c' = newAttachments c /\
     originalAttachments c' = originalAttachments c /\
     removedAttachments c' = removedAttachments c /\
     draftAttachments c' = draftsStore env (length tr) (draftKey c)).
Proof.
  unfold reactive_updateAttachments, bind, get. split.
  - intros ->. reflexivity.
  - intros Hne Hcase. apply String.eqb_neq in Hne. rewrite Hne.
    unfold updateAttachments, bind, get, now, modify, emit, query_attachedTo.
    destruct Hcase as [Hnone | Hoff].
    + rewrite Hnone. eexists. split; [reflexivity|]. repeat split.
    + rewrite Hoff.
      destruct (draftsStore env (length tr) (draftKey c));
        eexists; (split; [reflexivity|]); repeat split.
Qed.

(** ** No [removeCollection] before the live query answers *)

Ltac original_side :=
  cbv beta in *;
  repeat match goal with
         | H : originalAttachments ?c = [] |- _ =>
             rewrite H in *; clear H
         end;
  simpl in *; intuition congruence.

Lemma perform_no_removeCollection (env : Env) (op : Op) :
  is_QueryResult op = false ->
  emits_only (fun c => originalAttachments c = [])
    (fun e => is_removeCollection e = false) (perform env op).
Proof.
  intros H. destruct op; simpl in H; try discriminate; simpl perform;
    unfold_script; only_auto original_side.
Qed.

Lemma onDestroy_no_removeCollection :
  emits_only (fun c => originalAttachments c = [])
    (fun e => is_removeCollection e = false) onDestroy.
Proof. unfold_script; only_auto original_side. Qed.

(** X16.  Only the answer of the live query fills [originalAttachments],
    and [deleteAttachment] calls [removeCollection] for original ids
    only.  So from a component without original attachments (a new one, or
    one that has loaded a draft), and until that query answers, nothing the
    component does calls [removeCollection], neither its handlers nor the
    teardown that ends it: every removal, committed or rolled back, is a
    [deleteFile] of the blob. *)
Theorem no_removeCollection_before_query (env : Env) (ops : list Op) (c : Comp)
  (tr : Trace) :
  originalAttachments c = [] ->
  Forall (fun op => is_QueryResult op = false) ops ->
  originalAttachments (fst (execute env ops c tr)) = [] /\
  (exists ev,
      snd (execute env ops c tr) = tr ++ ev /\
      Forall (fun e => is_removeCollection e = false) ev) /\
  (exists ev,
      snd (onDestroy (fst (execute env ops c tr)) (snd (execute env ops c tr))) =
      snd (execute env ops c tr) ++ ev /\
      Forall (fun e => is_removeCollection e = false) ev /\
      forall a,
        In (Issue (deleteAttachment_call (fst (execute env ops c tr)) a)) ev ->
        In (Issue (DeleteFile (Attachment.file a))) ev).
Proof.
  intros Ho Hops.
  destruct (execute_only (fun c' => originalAttachments c' = [])
              (fun e => is_removeCollection e = false)
              (fun op => is_QueryResult op = false) env
              (perform_no_removeCollection env) ops c tr Hops Ho)
    as (Ho' & Hev).
  split; [exact Ho'|]. split; [exact Hev|].
  destruct (onDestroy_no_removeCollection
              (fst (execute env ops c tr)) (snd (execute env ops c tr)) Ho')
    as (_ & ev & E & Q).
  exists ev. split; [exact E|]. split; [exact Q|].
  intros a. unfold deleteAttachment_call. rewrite Ho'. simpl. auto.
Qed.

Lemma no_removeCollection_before_query_witness :
  originalAttachments
    (fst (execute env_draft
            [ReactiveUpdateAttachments; FileSelected;
             RemoveAttachment attachment_png; Message "hello"]
            (created true) [])) = [] /\
  (exists ev,
      snd (execute env_draft
             [ReactiveUpdateAttachments; FileSelected;
              RemoveAttachment attachment_png; Message "hello"]
             (created true) []) = [] ++ ev /\
      Forall (fun e => is_removeCollection e = false) ev) /\
  (exists ev,
      snd (onDestroy (fst (execute env_fulfil [FileSelected] (created false) []))
             (snd (execute env_fulfil [FileSelected] (created false) []))) =
      snd (execute env_fulfil [FileSelected] (created false) []) ++ ev /\
      Forall (fun e => is_removeCollection e = false) ev) /\
  existsb is_store_call
    (snd (onDestroy (fst (execute env_fulfil [FileSelected] (created false) []))
            (snd (execute env_fulfil [FileSelected] (created false) [])))) = true.
Proof.
  split; [|split; [|split]].
  4: reflexivity.
  - apply (no_removeCollection_before_query env_draft
             [ReactiveUpdateAttachments; FileSelected;
              RemoveAttachment attachment_png; Message "hello"]
             (created true) [] eq_refl).
    repeat constructor.
  - apply (no_removeCollection_before_query env_draft
             [ReactiveUpdateAttachments; FileSelected;
              RemoveAttachment attachment_png; Message "hello"]
             (created true) [] eq_refl).
    repeat constructor.
  - destruct (no_removeCollection_before_query env_fulfil [FileSelected]
                (created false) [] eq_refl) as (_ & _ & ev & E & Q & _).
    + repeat constructor.
    + exists ev. split; [exact E | exact Q].
Defined.
